(** * TaskTree icon conversion script: a shallow embedding of
      [scripts/convert-icon.py] and the properties of its silhouette and
      monochrome-extraction steps.

    The script turns [icon.png] into two vector documents.  The colour
    document is whatever the external vectorizer writes.  The monochrome one
    is built in three stages that are modelled here:

    - pixel classification (the [for item in data] loop),
    - text extraction with [re.findall], two substring filters and [re.sub],
    - assembling the final document around the retained elements.

    What the script takes from outside enters the model as parameters: the
    vectorizer ([vtracer]), the image codec (PIL), the text codec of the
    file objects, the errors the operating system raises on opening a path,
    the errors of standard output, and the interpreter's Unicode tables
    behind [str.lower]. *)

From Stdlib Require Import ZArith List Ascii String Bool Lia QArith.
From stdpp Require Import gmap strings.
Import ListNotations.

Local Open Scope Z_scope.

(** ** Bitmaps *)

Module Bitmap.

(** An RGBA pixel as PIL's [getdata] yields it: the tuple [(r, g, b, a)]. *)
Definition pixel : Type := Z * Z * Z * Z.

Definition black : pixel := (0, 0, 0, 255).
Definition white : pixel := (255, 255, 255, 255).
Definition transparent_black : pixel := (0, 0, 0, 0).

Definition pixel_eq_dec (p q : pixel) : {p = q} + {p <> q}.
Proof. repeat decide equality. Defined.

(** The condition of the [if] in the loop body:
    [a > 50 and not (r > 250 and g > 250 and b > 250)]. *)
Definition is_foreground (item : pixel) : bool :=
  let '(r, g, b, a) := item in
  (a >? 50) && negb ((r >? 250) && (g >? 250) && (b >? 250)).

(** One iteration of the loop: what is appended for [item]. *)
Definition classify (item : pixel) : pixel :=
  if is_foreground item then black else white.

(** [new_data = []; for item in data: new_data.append(...)]. *)
Definition new_data (data : list pixel) : list pixel :=
  fold_left (fun acc item => acc ++ [classify item]) data [].

(** A PIL image in mode RGBA: its [size] and its pixels in row-major order,
    as [getdata] flattens them. *)
Record image : Type := Image {
  width : nat;
  height : nat;
  getdata : list pixel
}.

(** An image PIL can hold has one pixel per position. *)
Definition well_formed (img : image) : Prop :=
  List.length (getdata img) = (width img * height img)%nat.

(** [Image.new('RGBA', (width, height))]: every pixel is [(0, 0, 0, 0)]. *)
Definition Image_new (w h : nat) : image :=
  Image w h (repeat transparent_black (w * h)).

(** [img.putdata(seq)]: copies [seq] over the image from the upper left
    corner.  A sequence longer than the image is refused (PIL raises); a
    shorter one leaves the remaining pixels as they were. *)
Definition putdata (img : image) (seq : list pixel) : option image :=
  if (width img * height img <? List.length seq)%nat then None
  else Some (Image (width img) (height img)
                   (seq ++ skipn (List.length seq) (getdata img))).

(** Lines 36-49: from the opened image to [img_bw]. *)
Definition silhouette (img : image) : option image :=
  let data := getdata img in
  let '(w, h) := (width img, height img) in
  putdata (Image_new w h) (new_data data).

(** Number of occurrences of a pixel value in a pixel list. *)
Definition count (v : pixel) (l : list pixel) : nat :=
  count_occ pixel_eq_dec l v.

(** The distinct pixel values of a pixel list. *)
Definition distinct_values (l : list pixel) : list pixel :=
  nodup pixel_eq_dec l.

End Bitmap.

(** ** Text and regular expressions *)

Module Re.

(** A Python string is a sequence of Unicode code points. *)
Definition char : Type := N.
Definition text : Type := list char.

(** The code point of an ASCII character. *)
Definition chr (a : ascii) : char := N_of_ascii a.

Definition dquote : char := 34%N.
Definition newline : char := 10%N.

(** A literal without double quotes. *)
Definition lit (s : string) : text := map chr (list_ascii_of_string s).

(** A literal of the script that contains double quotes, written here with
    apostrophes in their place. *)
Definition qlit (s : string) : text :=
  map (fun c => if N.eqb c (chr "'") then dquote else c) (lit s).

(** [hay.startswith(needle)] *)
Fixpoint startswith (needle hay : text) : bool :=
  match needle, hay with
  | [], _ => true
  | _ :: _, [] => false
  | x :: needle', y :: hay' => N.eqb x y && startswith needle' hay'
  end.

(** [needle in hay] for strings. *)
Fixpoint contains (needle hay : text) : bool :=
  startswith needle hay ||
  match hay with
  | [] => false
  | _ :: hay' => contains needle hay'
  end.

(** [str.lower]: an ASCII character goes to its lower-case form, [A]-[Z]
    to [a]-[z] and any other to itself; a character beyond ASCII goes to
    what the interpreter's Unicode tables give, one to three code points,
    which for the Greek capital sigma depends on where in the text it
    stands.  Those tables are the parameter [unicode_lower]: the text, the
    index and the character there. *)
Definition ascii_lower_char (c : char) : char :=
  if ((65 <=? c) && (c <=? 90))%N then (c + 32)%N else c.

Fixpoint lower_from (unicode_lower : text -> nat -> char -> list char)
         (s : text) (i : nat) (rest : text) : text :=
  match rest with
  | [] => []
  | c :: rest' =>
      (if (c <? 128)%N then [ascii_lower_char c] else unicode_lower s i c)
      ++ lower_from unicode_lower s (S i) rest'
  end.

Definition lower (unicode_lower : text -> nat -> char -> list char)
           (s : text) : text :=
  lower_from unicode_lower s O s.

(** The fragment of Python's regular expressions the script uses: a pattern
    is a sequence of literal characters, [[^c]+] and [[^c]*]. *)
Inductive atom : Type :=
  | Chr (c : char)
  | NotPlus (c : char)
  | NotStar (c : char).

Definition regex : Type := list atom.

(** A greedy run of characters other than [c], followed by the rest of the
    pattern [k]: the longest run is tried first, and the matcher backtracks
    to shorter runs when the rest fails.  The result is the number of
    characters matched. *)
Fixpoint greedy (c : char) (k : text -> option nat) (s : text) : option nat :=
  match s with
  | x :: s' =>
      if N.eqb x c then k s
      else match greedy c k s' with
           | Some n => Some (S n)
           | None => k s
           end
  | [] => k s
  end.

(** Matching a pattern at the start of [s]. *)
Fixpoint match_here (r : regex) (s : text) {struct r} : option nat :=
  match r with
  | [] => Some O
  | Chr c :: r' =>
      match s with
      | x :: s' => if N.eqb x c then option_map S (match_here r' s') else None
      | [] => None
      end
  | NotStar c :: r' => greedy c (match_here r') s
  | NotPlus c :: r' =>
      match s with
      | x :: s' =>
          if N.eqb x c then None
          else option_map S (greedy c (match_here r') s')
      | [] => None
      end
  end.

(** The left-to-right scan [re.findall] and [re.sub] share: at each position
    the pattern is tried; a match is reported and the scan resumes after it,
    otherwise the character is passed over.  [skip] counts the characters of
    the current match still to be consumed.  Both patterns of the script
    match at least seven characters, so empty matches do not arise. *)
Inductive token : Type :=
  | Gap (c : char)
  | Hit (m : text).

Fixpoint scan (r : regex) (skip : nat) (s : text) : list token :=
  match s with
  | [] => []
  | c :: s' =>
      match skip with
      | S k => scan r k s'
      | O =>
          match match_here r s with
          | Some (S n) => Hit (firstn (S n) s) :: scan r n s'
          | _ => Gap c :: scan r O s'
          end
      end
  end.

(** [re.findall(r, s)] for a pattern without groups: the matches. *)
Definition token_hits (t : token) : list text :=
  match t with Hit m => [m] | Gap _ => [] end.

Definition findall (r : regex) (s : text) : list text :=
  flat_map token_hits (scan r O s).

(** [re.sub(r, repl, s)] for a replacement without escapes: the text with
    every match replaced. *)
Definition token_subst (repl : text) (t : token) : text :=
  match t with Hit _ => repl | Gap c => [c] end.

Definition sub (r : regex) (repl : text) (s : text) : text :=
  flat_map (token_subst repl) (scan r O s).

(** The same scan as a relation between a text and its tokens, for
    induction on how the scan proceeds. *)
Inductive scans (r : regex) : text -> list token -> Prop :=
  | scans_nil : scans r [] []
  | scans_gap c s ts :
      match_here r (c :: s) = None \/ match_here r (c :: s) = Some O ->
      scans r s ts ->
      scans r (c :: s) (Gap c :: ts)
  | scans_hit m rest ts :
      m <> [] ->
      match_here r (m ++ rest) = Some (List.length m) ->
      scans r rest ts ->
      scans r (m ++ rest) (Hit m :: ts).

End Re.

(** ** The monochrome document *)

Module Svg.
Import Re.

(** The pattern of line 71: the characters [<path], one or more characters
    other than [>], then [/>]. *)
Definition path_open : text := lit "<path".
Definition path_close : text := lit "/>".

Definition path_re : regex :=
  map Chr path_open ++ [NotPlus (chr ">")] ++ map Chr path_close.

(** The pattern of line 81: [fill=], a double quote, any number of
    characters other than a double quote, and a double quote. *)
Definition fill_open : text := qlit "fill='".

Definition fill_re : regex :=
  map Chr fill_open ++ [NotStar dquote] ++ [Chr dquote].

(** The replacement of line 81: the fill attribute with value
    [currentColor] in double quotes. *)
Definition placeholder_fill : text := qlit "fill='currentColor'".

(** Line 71. *)
Definition paths (content : text) : list text := findall path_re content.

(** The condition of the comprehension on line 75. *)
Definition not_mentions_white (p : text) : bool :=
  negb (contains (lit "#fff") p) && negb (contains (lit "#FFF") p).

(** Line 81. *)
Definition rewrite_fill (path : text) : text :=
  sub fill_re placeholder_fill path.

(** Line 78. *)
Definition svg_open : text :=
  qlit "<svg xmlns='http://www.w3.org/2000/svg' viewBox='0 0 1206 1206' width='24' height='24' fill='currentColor'>"
  ++ [newline].

(** Line 84. *)
Definition svg_close : text := lit "</svg>".

(** Lines 78-84: the document built around the retained elements. *)
Definition svg_content (black_paths : list text) : text :=
  fold_left (fun svg_content path => svg_content ++ (rewrite_fill path ++ [newline]))
            black_paths svg_open
  ++ svg_close.

Section Lowering.

(** The interpreter's Unicode tables, see [Re.lower]. *)
Variable unicode_lower : text -> nat -> char -> list char.

(** The condition of the comprehension on line 72. *)
Definition mentions_black (p : text) : bool :=
  contains (lit "#000") p || contains (lit "black") (lower unicode_lower p).

(** Lines 71-75: the retained elements. *)
Definition black_paths (content : text) : list text :=
  let paths := paths content in
  let black_paths := List.filter mentions_black paths in
  match black_paths with
  | [] => List.filter not_mentions_white paths
  | _ :: _ => black_paths
  end.

(** Lines 71-84 as one function of the text read back. *)
Definition monochrome_document (content : text) : text :=
  svg_content (black_paths content).

End Lowering.

End Svg.

(** ** The script *)

Module Script.
Import Bitmap Re Svg.

(** The keyword arguments of [vtracer.convert_image_to_svg_py].  The two
    colour-only parameters are absent from the binary call. *)
Record config : Type := Config {
  colormode : string;
  hierarchical : string;
  mode : string;
  filter_speckle : Z;
  color_precision : option Z;
  layer_difference : option Z;
  corner_threshold : Z;
  length_threshold : Q;
  max_iterations : Z;
  splice_threshold : Z;
  path_precision : Z
}.

(** Lines 17-27. *)
Definition color_config : config :=
  Config "color" "stacked" "spline" 4 (Some 6) (Some 16) 60 (4 # 1) 10 45 3.

(** Lines 56-64. *)
Definition binary_config : config :=
  Config "binary" "stacked" "spline" 4 None None 60 (4 # 1) 10 45 3.

(** The exceptions that can end a run; the script catches none.  The
    model itself raises [FileNotFoundError] for a path that holds nothing,
    [TypeError] where [putdata] refuses its argument, and [VectorizerError]
    where the vectorizer cannot read its input or write its output.  Every
    other exception comes from outside (PIL, the text codec, the
    vectorizer, the operating system) and is whatever that part raises;
    [LibraryError] names such an exception by its class. *)
Inductive exn : Type :=
  | FileNotFoundError (path : string)
  | TypeError
  | VectorizerError (path : string)
  | LibraryError (name : string).

(** The two ways the script opens a path. *)
Inductive access : Type := Reading | Writing.

(** The fixed temporary files of lines 50, 54, 55 and 68. *)
Definition tmp_png : string := "/tmp/icon_silhouette.png".
Definition tmp_svg : string := "/tmp/silhouette.svg".

(** [os.path.join(a, b)] for a relative [b]. *)
Definition os_path_join (a b : string) : string :=
  match a with
  | EmptyString => b
  | _ =>
      if String.eqb (String.substring (String.length a - 1) 1 a) "/"
      then a +:+ b
      else a +:+ "/" +:+ b
  end.

(** The three paths of lines 98-100. *)
Definition input_path (project_dir : string) : string :=
  os_path_join project_dir "icon.png".
Definition color_path (project_dir : string) : string :=
  os_path_join project_dir "icon.svg".
Definition mono_path (project_dir : string) : string :=
  os_path_join project_dir "activitybar-icon.svg".

Section Run.

(** The external parts.  A file holds [bytes].

    - [os_error]: what the operating system raises when a path is opened
      for reading or for writing (a missing directory, a permission, a
      directory in place of a file), if anything.  The script creates no
      directory and changes no permission, so this does not change while
      it runs.
    - [print_error]: what [print] raises for a line, if anything (a
      character of a path that the encoding of standard output lacks).
    - [decode_image]: [Image.open(...).convert('RGBA')] on the bytes of a
      file, the image or the exception PIL raises.
    - [encode_image]: the bytes [save] writes for an image.
    - [decode_text], [encode_text]: the text [read] returns for the bytes
      of a file opened in text mode, or the exception of the codec, and
      the bytes [write] produces for a text.
    - [vtracer]: the bytes the vectorizer writes for its parameters and the
      bytes of its input file, or the exception it raises.
    - [unicode_lower]: the Unicode tables of [str.lower]. *)
Context {bytes : Type}.
Variable os_error : access -> string -> option exn.
Variable print_error : string -> option exn.
Variable decode_image : bytes -> image + exn.
Variable encode_image : image -> bytes.
Variable decode_text : bytes -> text + exn.
Variable encode_text : text -> bytes.
Variable vtracer : config -> bytes -> bytes + exn.
Variable unicode_lower : text -> nat -> char -> list char.

(** What a run acts on: the files by path, and the lines printed. *)
Record world : Type := World {
  files : gmap string bytes;
  stdout : list string
}.

(** A statement either completes with a value or raises; the files written
    before an exception stay written. *)
Inductive result (A : Type) : Type :=
  | Ok (a : A) (w : world)
  | Raise (e : exn) (w : world).
Arguments Ok {A} a w.
Arguments Raise {A} e w.

Definition M (A : Type) : Type := world -> result A.

Definition ret {A} (a : A) : M A := fun w => Ok a w.

Definition raise {A} (e : exn) : M A := fun w => Raise e w.

Definition bind {A B} (c : M A) (k : A -> M B) : M B :=
  fun w => match c w with
           | Ok a w' => k a w'
           | Raise e w' => Raise e w'
           end.

Notation "x <- c ;; k" := (bind c (fun x => k))
  (at level 62, c at next level, right associativity).
Notation "c ;;; k" := (bind c (fun _ => k))
  (at level 62, right associativity).

(** Reading the bytes at a path: the operating system may refuse, and a
    path that holds nothing raises [FileNotFoundError]. *)
Definition read_file (path : string) : M bytes :=
  fun w => match os_error Reading path with
           | Some e => Raise e w
           | None =>
               match files w !! path with
               | None => Raise (FileNotFoundError path) w
               | Some content => Ok content w
               end
           end.

(** Writing bytes at a path: the operating system may refuse. *)
Definition write_file (path : string) (content : bytes) : M unit :=
  fun w => match os_error Writing path with
           | Some e => Raise e w
           | None => Ok tt (World (<[path := content]> (files w)) (stdout w))
           end.

(** [print(line)]: standard output may refuse the line. *)
Definition print (line : string) : M unit :=
  fun w => match print_error line with
           | Some e => Raise e w
           | None => Ok tt (World (files w) (stdout w ++ [line]))
           end.

(** [Image.open(path).convert('RGBA')] *)
Definition Image_open (path : string) : M image :=
  content <- read_file path ;;
  match decode_image content with
  | inl img => ret img
  | inr e => raise e
  end.

(** [img.save(path)] *)
Definition Image_save (img : image) (path : string) : M unit :=
  write_file path (encode_image img).

(** [open(path, 'r').read()] *)
Definition read_text (path : string) : M text :=
  content <- read_file path ;;
  match decode_text content with
  | inl t => ret t
  | inr e => raise e
  end.

(** [open(path, 'w').write(t)] *)
Definition write_text (path : string) (t : text) : M unit :=
  write_file path (encode_text t).

(** [vtracer.convert_image_to_svg_py(input, output, ...)]: the vectorizer
    reads its input and writes its output itself. *)
Definition convert_image_to_svg_py (input output : string) (cfg : config) : M unit :=
  fun w => match os_error Reading input, files w !! input with
           | None, Some content =>
               match vtracer cfg content with
               | inl svg =>
                   match os_error Writing output with
                   | None => Ok tt (World (<[output := svg]> (files w)) (stdout w))
                   | Some _ => Raise (VectorizerError output) w
                   end
               | inr e => Raise e w
               end
           | _, _ => Raise (VectorizerError input) w
           end.

(** Lines 12-29. *)
Definition convert_to_color_svg (input_png output_svg : string) : M unit :=
  convert_image_to_svg_py input_png output_svg color_config ;;;
  print ("Created color SVG: " +:+ output_svg).

(** Lines 32-89. *)
Definition convert_to_monochrome_svg (input_png output_svg : string) : M unit :=
  img <- Image_open input_png ;;
  img_bw <- match silhouette img with
            | Some img_bw => ret img_bw
            | None => raise TypeError
            end ;;
  Image_save img_bw tmp_png ;;;
  convert_image_to_svg_py tmp_png tmp_svg binary_config ;;;
  content <- read_text tmp_svg ;;
  write_text output_svg (monochrome_document unicode_lower content) ;;;
  print ("Created monochrome SVG: " +:+ output_svg).

(** Lines 92-105, for the directory [project_dir] above the script's own. *)
Definition main (project_dir : string) : M unit :=
  let input_png := input_path project_dir in
  let color_svg := color_path project_dir in
  let mono_svg := mono_path project_dir in
  convert_to_color_svg input_png color_svg ;;;
  convert_to_monochrome_svg input_png mono_svg ;;;
  print "Done!".

(** The paths the monochrome conversion opens besides its source and its
    output can all be opened. *)
Definition temporaries_usable : Prop :=
  os_error Writing tmp_png = None /\ os_error Reading tmp_png = None
  /\ os_error Writing tmp_svg = None /\ os_error Reading tmp_svg = None.

(** Two states of the file system hold the same thing at the paths [K]. *)
Definition agree (K : list string) (a b : world) : Prop :=
  forall k, In k K -> files a !! k = files b !! k.

(** The paths [W] exist. *)
Definition written (W : list string) (a : world) : Prop :=
  forall k, In k W -> is_Some (files a !! k).

(** Two statements end alike: both complete with the same value, leaving
    the same files at [K] with those at [W] present, or both raise the same
    exception. *)
Definition same_outcome {A} (K W : list string) (r1 r2 : result A) : Prop :=
  match r1, r2 with
  | Ok x a, Ok y b => x = y /\ agree K a b /\ written W a
  | Raise e1 _, Raise e2 _ => e1 = e2
  | _, _ => False
  end.

End Run.

Arguments Ok {bytes A} a w.
Arguments Raise {bytes A} e w.

End Script.

(** ** The specification's vocabulary

    Definitions that follow the words of the specification rather than the
    code, to compare the two. *)

Module Spec.
Import Bitmap Re Svg.

(** [needle] occurs somewhere in [hay]. *)
Definition occurs (needle hay : text) : Prop :=
  exists pre post, hay = pre ++ needle ++ post.

(** A self-closing path element: [<path], at least one character, [/>], with
    no [>] before the closing one. *)
Definition self_closing_path (p : text) : Prop :=
  exists body,
    p = path_open ++ body ++ path_close /\ body <> [] /\ ~ In (chr ">") body.

(** A fill attribute in double quotes: [fill=], a double quote, a value
    without double quote, a double quote. *)
Definition fill_attribute (a : text) : Prop :=
  exists value, a = fill_open ++ value ++ [dquote] /\ ~ In dquote value.

(** Reading a text from left to right for the pieces of one kind, without
    overlap: where a piece begins it is taken whole and the reading goes on
    after it; a character where no piece begins is passed over.  The result
    is the list of the pieces found, in the order of the text. *)
Inductive reading (piece : text -> Prop) : text -> list text -> Prop :=
  | reading_end : reading piece [] []
  | reading_pass c s found :
      (forall e post, c :: s = e ++ post -> ~ piece e) ->
      reading piece s found ->
      reading piece (c :: s) found
  | reading_take e rest found :
      piece e ->
      reading piece rest found ->
      reading piece (e ++ rest) (e :: found).

(** The same reading with every piece replaced by [new] and every other
    character kept. *)
Inductive replacing (piece : text -> Prop) (new : text) : text -> text -> Prop :=
  | replacing_end : replacing piece new [] []
  | replacing_keep c s out :
      (forall e post, c :: s = e ++ post -> ~ piece e) ->
      replacing piece new s out ->
      replacing piece new (c :: s) (c :: out)
  | replacing_swap e rest out :
      piece e ->
      replacing piece new rest out ->
      replacing piece new (e ++ rest) (new ++ out).

(** The shape elements of a document: its self-closing path elements, read
    from left to right without overlap. *)
Definition shape_elements (doc : text) (elements : list text) : Prop :=
  reading self_closing_path doc elements.

(** [w] spells [pattern], a word in lower-case ASCII letters, in some mix of
    upper and lower case. *)
Definition in_any_case (pattern w : text) : Prop :=
  Forall2 (fun y x => x = y \/ (x + 32)%N = y) pattern w.

(** The fill attribute written with apostrophes, which XML allows as well. *)
Definition fill_re_apos : regex :=
  map Chr (lit "fill='") ++ [NotStar (chr "'")] ++ [Chr (chr "'")].

(** The value inside an attribute [fill=...]: without the six leading
    characters and the closing quote. *)
Definition attribute_value (attr : text) : text :=
  removelast (skipn 6 attr).

(** The values of the fill attributes of an element, in either quoting. *)
Definition fill_values (element : text) : list text :=
  map attribute_value (findall fill_re element ++ findall fill_re_apos element).

Definition text_eqb (a b : text) : bool :=
  if List.list_eq_dec N.eq_dec a b then true else false.

(** A fill value that denotes black, by hex code or by name. *)
Definition denotes_black (v : text) : bool :=
  let v := map ascii_lower_char v in
  text_eqb v (lit "#000") || text_eqb v (lit "#000000") || text_eqb v (lit "black").

(** A fill value that denotes white, by hex code or by name. *)
Definition denotes_white (v : text) : bool :=
  let v := map ascii_lower_char v in
  text_eqb v (lit "#fff") || text_eqb v (lit "#ffffff") || text_eqb v (lit "white").

Definition fill_is_black (p : text) : bool := existsb denotes_black (fill_values p).
Definition fill_is_white (p : text) : bool := existsb denotes_white (fill_values p).

(** The extraction as the specification words it: the elements whose fill
    denotes black, or, when there is none, those whose fill does not denote
    white. *)
Definition spec_black_paths (content : text) : list text :=
  match List.filter fill_is_black (paths content) with
  | [] => List.filter (fun p => negb (fill_is_white p)) (paths content)
  | retained => retained
  end.

(** What the code tests instead, as propositions about substrings. *)
Definition names_black (unicode_lower : text -> nat -> char -> list char)
           (p : text) : Prop :=
  occurs (lit "#000") p \/ occurs (lit "black") (lower unicode_lower p).

Definition avoids_white (p : text) : Prop :=
  ~ occurs (lit "#fff") p /\ ~ occurs (lit "#FFF") p.

(** A text of ASCII characters only. *)
Definition ascii_only (s : text) : Prop := Forall (fun c => (c < 128)%N) s.

(** A source pixel the specification calls foreground. *)
Definition foreground (item : pixel) : Prop :=
  let '(r, g, b, a) := item in a > 50 /\ ~ (r > 250 /\ g > 250 /\ b > 250).

End Spec.

(** ** Concrete inputs used below *)

Module Inputs.
Import Bitmap Re Svg Script.

(** Two elements: one filled black, one filled red whose id is [black]. *)
Definition red_named_black : text :=
  qlit "<path d='M0 0' fill='#000000'/><path id='black' d='M1 1' fill='#ff0000'/>".

(** One element whose attributes are quoted with apostrophes. *)
Definition apostrophe_fill : text :=
  lit "<path d='M0 0' fill='#000000'/>".

(** A document without shapes, as a tracer that filters small specks
    writes for a bitmap whose only ink is a speck. *)
Definition no_shapes : text := qlit "<svg version='1.1'></svg>".

(** A document with one black shape, and one with one red shape. *)
Definition one_black_shape : text :=
  qlit "<svg><path d='M0 0 L1 0 L1 1 Z' fill='#000000'/></svg>".
Definition one_red_shape : text :=
  qlit "<svg><path d='M0 0 L1 0 L1 1 Z' fill='#FF0000'/></svg>".

(** The example of the specification: 2 by 2, one opaque black pixel, three
    fully transparent ones. *)
Definition two_by_two : image :=
  Image 2 2 [(0, 0, 0, 255); (0, 0, 0, 0); (0, 0, 0, 0); (0, 0, 0, 0)].

Definition one_black_pixel : image := Image 1 1 [(0, 0, 0, 255)].

(** The 2 by 2 example with its ink in another colour. *)
Definition two_by_two_red : image :=
  Image 2 2 [(200, 30, 30, 180); (0, 0, 0, 0); (255, 255, 255, 255); (9, 9, 9, 50)].

(** Files that hold a decoded image or a text as such. *)
Inductive raw : Type :=
  | RawImage (img : image)
  | RawText (t : text).

Definition raw_decode_image (content : raw) : image + exn :=
  match content with
  | RawImage img => inl img
  | RawText _ => inr (LibraryError "UnidentifiedImageError")
  end.

Definition raw_encode_image (img : image) : raw := RawImage img.

Definition raw_decode_text (content : raw) : text + exn :=
  match content with
  | RawText t => inl t
  | RawImage _ => inr (LibraryError "UnicodeDecodeError")
  end.

Definition raw_encode_text (t : text) : raw := RawText t.

(** An operating system that lets every path be opened. *)
Definition no_os_error (a : access) (path : string) : option exn := None.

(** An operating system that refuses to open the monochrome output of
    [/repo] for writing. *)
Definition output_denied (a : access) (path : string) : option exn :=
  match a with
  | Writing =>
      if String.eqb path "/repo/activitybar-icon.svg"
      then Some (LibraryError "PermissionError")
      else None
  | Reading => None
  end.

(** A standard output that takes every line, and one that takes none. *)
Definition no_print_error (line : string) : option exn := None.

Definition closed_stdout (line : string) : option exn :=
  Some (LibraryError "BrokenPipeError").

(** Tables that leave every character beyond ASCII as it is. *)
Definition no_unicode (s : text) (i : nat) (c : char) : list char := [c].

(** Tables that lower-case the Kelvin sign to [k], as Unicode has it. *)
Definition kelvin_unicode (s : text) (i : nat) (c : char) : list char :=
  if N.eqb c 8490 then [chr "k"] else [c].

(** A tracer that finds nothing to trace. *)
Definition blank_tracer (cfg : config) (content : raw) : raw + exn :=
  inl (RawText no_shapes).

(** A tracer that writes one black element in binary mode and one red
    element in colour mode. *)
Definition one_shape_tracer (cfg : config) (content : raw) : raw + exn :=
  if String.eqb (colormode cfg) "binary"
  then inl (RawText one_black_shape)
  else inl (RawText one_red_shape).

(** A tracer that answers in colour mode and fails in binary mode. *)
Definition color_only_tracer (cfg : config) (content : raw) : raw + exn :=
  if String.eqb (colormode cfg) "color"
  then inl (RawText one_red_shape)
  else inr (LibraryError "Exception").

(** A tracer that answers in binary mode as [one_shape_tracer] does and
    fails in colour mode. *)
Definition binary_only_tracer (cfg : config) (content : raw) : raw + exn :=
  if String.eqb (colormode cfg) "binary"
  then inl (RawText one_black_shape)
  else inr (LibraryError "Exception").

(** A tracer that fails on a file that holds no bitmap and otherwise
    answers as [one_shape_tracer] does. *)
Definition strict_tracer (cfg : config) (content : raw) : raw + exn :=
  match content with
  | RawImage _ => one_shape_tracer cfg content
  | RawText _ => inr (LibraryError "Exception")
  end.

Definition start (img : image) : world (bytes := raw) :=
  World (<[ "/repo/icon.png"%string := RawImage img ]> ∅) [].

(** A file system holding the source and a file of someone else's. *)
Definition start_with_other (img : image) : world (bytes := raw) :=
  World (<[ "/home/me/notes.txt"%string := RawText (lit "keep") ]> (files (start img)))
        [].

(** A file system without the source. *)
Definition no_source : world (bytes := raw) := World ∅ [].

(** A file system whose source path holds text. *)
Definition text_source : world (bytes := raw) :=
  World (<[ "/repo/icon.png"%string := RawText (lit "not an image") ]> ∅) [].

(** The whole script and its monochrome half on these files. *)
Definition run_main (os_error : access -> string -> option exn)
           (tracer : config -> raw -> raw + exn) : string -> M unit :=
  main os_error no_print_error raw_decode_image raw_encode_image raw_decode_text
       raw_encode_text tracer no_unicode.

Definition run_monochrome (os_error : access -> string -> option exn)
           (tracer : config -> raw -> raw + exn) : string -> string -> M unit :=
  convert_to_monochrome_svg os_error no_print_error raw_decode_image raw_encode_image
    raw_decode_text raw_encode_text tracer no_unicode.

End Inputs.

(** * Properties *)

(** ** Pixel classification *)

Section SilhouetteFacts.
Import Bitmap Spec.

Lemma new_data_acc (data acc : list pixel) :
  fold_left (fun acc item => acc ++ [classify item]) data acc
  = acc ++ map classify data.
Proof.
  revert acc; induction data as [|item data IH]; intros acc; simpl.
  - now rewrite app_nil_r.
  - rewrite IH, <- app_assoc. reflexivity.
Qed.

Lemma new_data_map (data : list pixel) : new_data data = map classify data.
Proof. unfold new_data. now rewrite new_data_acc. Qed.

Lemma is_foreground_iff (item : pixel) :
  is_foreground item = true <-> foreground item.
Proof.
  destruct item as [[[r g] b] a]; unfold is_foreground, foreground.
  rewrite andb_true_iff, negb_true_iff, Z.gtb_gt.
  split; intros [Ha Hw]; split; try assumption.
  - intros (Hr & Hg & Hb). apply Z.gtb_gt in Hr, Hg, Hb.
    rewrite Hr, Hg, Hb in Hw. discriminate.
  - destruct (r >? 250) eqn:Hr, (g >? 250) eqn:Hg, (b >? 250) eqn:Hb;
      try reflexivity.
    exfalso; apply Hw; rewrite <- !Z.gtb_gt; auto.
Qed.

Lemma classify_black_iff (item : pixel) :
  classify item = black <-> foreground item.
Proof.
  rewrite <- is_foreground_iff. unfold classify.
  destruct (is_foreground item); split; intros H;
    try reflexivity; discriminate H.
Qed.

Lemma classify_white_iff (item : pixel) :
  classify item = white <-> ~ foreground item.
Proof.
  rewrite <- is_foreground_iff. unfold classify.
  destruct (is_foreground item); split; intros H;
    try reflexivity; try discriminate H; try (intros E; discriminate E).
  exfalso; now apply H.
Qed.

Lemma classify_cases (item : pixel) :
  classify item = black \/ classify item = white.
Proof. unfold classify; destruct (is_foreground item); auto. Qed.

(** On an image PIL can hold, [putdata] receives exactly as many pixels as
    the new image has, so it does not raise and overwrites every pixel. *)
Lemma silhouette_total (img : image) :
  well_formed img ->
  silhouette img
  = Some (Image (width img) (height img) (map classify (getdata img))).
Proof.
  unfold well_formed, silhouette, putdata, Image_new; simpl; intros Hwf.
  rewrite new_data_map, length_map, Hwf, Nat.ltb_irrefl.
  rewrite skipn_all2 by (rewrite repeat_length; lia).
  now rewrite app_nil_r.
Qed.

Lemma count_map_classify_black (data : list pixel) :
  count black (map classify data)
  = List.length (List.filter is_foreground data).
Proof.
  unfold count; induction data as [|p data IH]; [reflexivity|].
  cbn [map List.filter]. unfold classify at 1.
  destruct (is_foreground p).
  - rewrite count_occ_cons_eq by reflexivity. simpl. now rewrite IH.
  - rewrite count_occ_cons_neq by discriminate. exact IH.
Qed.

Lemma count_map_classify_white (data : list pixel) :
  count white (map classify data)
  = List.length (List.filter (fun p => negb (is_foreground p)) data).
Proof.
  unfold count; induction data as [|p data IH]; [reflexivity|].
  cbn [map List.filter]. unfold classify at 1.
  destruct (is_foreground p); cbn [negb].
  - rewrite count_occ_cons_neq by discriminate. exact IH.
  - rewrite count_occ_cons_eq by reflexivity. simpl. now rewrite IH.
Qed.

Lemma distinct_values_sub (data : list pixel) :
  incl (distinct_values (map classify data)) [black; white].
Proof.
  intros v Hv. apply nodup_In in Hv. apply in_map_iff in Hv.
  destruct Hv as (p & <- & _).
  destruct (classify_cases p) as [-> | ->]; simpl; auto.
Qed.

End SilhouetteFacts.

Section SilhouetteClaims.
Import Bitmap Spec Inputs.

(** C1.  For every source bitmap and every pixel [(r, g, b, a)] in it, the
    silhouette has opaque black [(0, 0, 0, 255)] at that position exactly
    when [a > 50] and not all of [r], [g], [b] exceed 250, and opaque white
    [(255, 255, 255, 255)] at that position otherwise. *)
Theorem classification_rule (img : image) :
  well_formed img ->
  exists bw,
    silhouette img = Some bw /\
    forall i r g b a,
      nth_error (getdata img) i = Some (r, g, b, a) ->
      (a > 50 /\ ~ (r > 250 /\ g > 250 /\ b > 250)
         <-> nth_error (getdata bw) i = Some (0, 0, 0, 255)) /\
      (~ (a > 50 /\ ~ (r > 250 /\ g > 250 /\ b > 250))
         <-> nth_error (getdata bw) i = Some (255, 255, 255, 255)).
Proof.
  intros Hwf. eexists; split; [apply silhouette_total, Hwf|].
  intros i r g b a Hi. cbn [getdata].
  rewrite nth_error_map, Hi. cbn [option_map].
  pose proof (classify_black_iff (r, g, b, a)) as Hb.
  pose proof (classify_white_iff (r, g, b, a)) as Hw.
  unfold foreground in Hb, Hw. fold black white.
  split; split; intros H.
  - f_equal. now apply Hb.
  - apply Hb. congruence.
  - f_equal. now apply Hw.
  - apply Hw. congruence.
Qed.

Lemma classification_rule_witness :
  well_formed two_by_two /\
  exists bw,
    silhouette two_by_two = Some bw /\
    forall i r g b a,
      nth_error (getdata two_by_two) i = Some (r, g, b, a) ->
      (a > 50 /\ ~ (r > 250 /\ g > 250 /\ b > 250)
         <-> nth_error (getdata bw) i = Some (0, 0, 0, 255)) /\
      (~ (a > 50 /\ ~ (r > 250 /\ g > 250 /\ b > 250))
         <-> nth_error (getdata bw) i = Some (255, 255, 255, 255)).
Proof.
  split; [reflexivity | apply (classification_rule two_by_two); reflexivity].
Defined.

(** The claim C5 as stated fails on a bitmap of one opaque black pixel: its
    silhouette has a single pixel value. *)
Lemma exactly_two_values_fails :
  exists bw,
    silhouette one_black_pixel = Some bw /\
    List.length (distinct_values (getdata bw)) <> 2%nat.
Proof. eexists; split; [reflexivity | vm_compute; discriminate]. Qed.

(** C5 (amended).  For every source bitmap, the silhouette has at most two
    distinct pixel values, each of them opaque black or opaque white; it has
    exactly two when the source has both a foreground and a background
    pixel, and only then. *)
Theorem at_most_two_values (img : image) :
  well_formed img ->
  exists bw,
    silhouette img = Some bw /\
    (List.length (distinct_values (getdata bw)) <= 2)%nat /\
    (forall v, In v (distinct_values (getdata bw)) -> v = black \/ v = white) /\
    (List.length (distinct_values (getdata bw)) = 2%nat
     <-> (exists p, In p (getdata img) /\ foreground p)
         /\ (exists q, In q (getdata img) /\ ~ foreground q)).
Proof.
  intros Hwf. eexists; split; [apply silhouette_total, Hwf|]. cbn [getdata].
  set (out := map classify (getdata img)).
  assert (Hnd : List.NoDup (distinct_values out)) by apply List.NoDup_nodup.
  assert (Hsub : incl (distinct_values out) [black; white])
    by apply distinct_values_sub.
  assert (Hle : (List.length (distinct_values out) <= 2)%nat)
    by (apply (List.NoDup_incl_length Hnd Hsub)).
  assert (Hin : forall v, In v (distinct_values out) <->
                          exists p, In p (getdata img) /\ classify p = v).
  { intros v. unfold distinct_values. rewrite nodup_In. unfold out.
    rewrite in_map_iff. split; intros (p & H1 & H2); exists p; auto. }
  split; [exact Hle|]. split.
  { intros v Hv. specialize (Hsub v Hv). simpl in Hsub. intuition auto. }
  split.
  - intros Hlen.
    assert (Hall : incl [black; white] (distinct_values out)).
    { apply List.NoDup_length_incl; [exact Hnd | simpl; lia | exact Hsub]. }
    split.
    + destruct (proj1 (Hin black)) as (p & Hp & Hc); [apply Hall; simpl; auto|].
      exists p; split; [exact Hp | now apply classify_black_iff].
    + destruct (proj1 (Hin white)) as (p & Hp & Hc); [apply Hall; simpl; auto|].
      exists p; split; [exact Hp | now apply classify_white_iff].
  - intros [(p & Hp & Hfp) (q & Hq & Hfq)].
    assert (Hall : incl [black; white] (distinct_values out)).
    { intros v [<- | [<- | []]]; apply Hin.
      - exists p; split; [exact Hp | now apply classify_black_iff].
      - exists q; split; [exact Hq | now apply classify_white_iff]. }
    assert (Hbw : List.NoDup [black; white]).
    { repeat constructor; simpl; intuition discriminate. }
    pose proof (List.NoDup_incl_length Hbw Hall) as Hge. simpl in Hge. lia.
Qed.

Lemma at_most_two_values_witness :
  well_formed two_by_two /\
  exists bw,
    silhouette two_by_two = Some bw /\
    (List.length (distinct_values (getdata bw)) <= 2)%nat /\
    (forall v, In v (distinct_values (getdata bw)) -> v = black \/ v = white) /\
    (List.length (distinct_values (getdata bw)) = 2%nat
     <-> (exists p, In p (getdata two_by_two) /\ foreground p)
         /\ (exists q, In q (getdata two_by_two) /\ ~ foreground q)).
Proof.
  split; [reflexivity | apply (at_most_two_values two_by_two); reflexivity].
Defined.

End SilhouetteClaims.

Section SilhouetteExamples.
Import Bitmap Spec Inputs.

(** C6.  When every source pixel is fully opaque black, every pixel of the
    silhouette, which has the size and the pixel count of the source, is
    pure black; when every source pixel is fully transparent or near-white
    (red, green and blue all above 250), every one of them is pure white. *)
Theorem uniform_bitmaps (img : image) :
  well_formed img ->
  exists bw,
    silhouette img = Some bw /\
    width bw = width img /\ height bw = height img /\
    List.length (getdata bw) = List.length (getdata img) /\
    ((forall p, In p (getdata img) -> p = (0, 0, 0, 255)) ->
     (forall q, In q (getdata bw) -> q = (0, 0, 0, 255))
     /\ getdata bw = repeat (0, 0, 0, 255) (width img * height img)) /\
    ((forall r g b a, In (r, g, b, a) (getdata img) ->
                      a = 0 \/ (r > 250 /\ g > 250 /\ b > 250)) ->
     (forall q, In q (getdata bw) -> q = (255, 255, 255, 255))
     /\ getdata bw = repeat (255, 255, 255, 255) (width img * height img)).
Proof.
  intros Hwf. eexists; split; [apply silhouette_total, Hwf|].
  cbn [getdata width height].
  split; [reflexivity|]. split; [reflexivity|]. split; [apply length_map|].
  assert (Hrep : forall v, (forall q, In q (map classify (getdata img)) -> q = v) ->
                           map classify (getdata img)
                           = repeat v (width img * height img)).
  { intros v Hv. rewrite <- Hwf, <- (length_map classify).
    apply List.Forall_eq_repeat, List.Forall_forall. intros q Hq. symmetry.
    now apply Hv. }
  assert (Hblack : (forall p, In p (getdata img) -> p = (0, 0, 0, 255)) ->
                   forall q, In q (map classify (getdata img)) -> q = (0, 0, 0, 255)).
  { intros Hall q Hq. apply in_map_iff in Hq. destruct Hq as (p & <- & Hp).
    rewrite (Hall p Hp). reflexivity. }
  assert (Hwhite : (forall r g b a, In (r, g, b, a) (getdata img) ->
                                    a = 0 \/ (r > 250 /\ g > 250 /\ b > 250)) ->
                   forall q, In q (map classify (getdata img))
                             -> q = (255, 255, 255, 255)).
  { intros Hall q Hq. apply in_map_iff in Hq. destruct Hq as (p & <- & Hp).
    apply classify_white_iff. destruct p as [[[r g] b] a].
    specialize (Hall r g b a Hp). unfold foreground. lia. }
  split; intros Hall; (split; [auto | apply Hrep; auto]).
Qed.

Lemma uniform_bitmaps_witness :
  (exists bw,
      silhouette one_black_pixel = Some bw
      /\ List.length (getdata bw) = 1%nat
      /\ getdata bw = [(0, 0, 0, 255)])
  /\ (exists bw,
         silhouette (Image 1 2 [(7, 7, 7, 0); (255, 251, 252, 9)]) = Some bw
         /\ List.length (getdata bw) = 2%nat
         /\ getdata bw = [(255, 255, 255, 255); (255, 255, 255, 255)]).
Proof.
  split.
  - destruct (uniform_bitmaps one_black_pixel eq_refl)
      as (bw & Hbw & _ & _ & Hlen & Hb & _).
    exists bw. split; [exact Hbw|]. split; [exact Hlen|]. apply Hb.
    intros p [<- | []]. reflexivity.
  - destruct (uniform_bitmaps (Image 1 2 [(7, 7, 7, 0); (255, 251, 252, 9)])
                eq_refl) as (bw & Hbw & _ & _ & Hlen & _ & Hw).
    exists bw. split; [exact Hbw|]. split; [exact Hlen|]. apply Hw.
    intros r g b a [[= <- <- <- <-] | [[= <- <- <- <-] | []]]; lia.
Defined.

(** C7.  A 2 by 2 bitmap made of one fully opaque black pixel and three
    fully transparent pixels, in any arrangement, classifies to a silhouette
    with exactly one black pixel and three white pixels. *)
Theorem two_by_two_example (data : list pixel) (r1 g1 b1 r2 g2 b2 r3 g3 b3 : Z) :
  Permutation data
    [(0, 0, 0, 255); (r1, g1, b1, 0); (r2, g2, b2, 0); (r3, g3, b3, 0)] ->
  exists bw,
    silhouette (Image 2 2 data) = Some bw /\
    width bw = 2%nat /\ height bw = 2%nat /\
    count (0, 0, 0, 255) (getdata bw) = 1%nat /\
    count (255, 255, 255, 255) (getdata bw) = 3%nat.
Proof.
  intros Hperm.
  assert (Hwf : well_formed (Image 2 2 data)).
  { unfold well_formed; cbn [getdata width height].
    now rewrite (Permutation_length Hperm). }
  eexists; split; [apply silhouette_total, Hwf|].
  cbn [getdata width height]. split; [reflexivity|]. split; [reflexivity|].
  pose proof (Permutation_map classify Hperm) as Hout.
  unfold count.
  rewrite !(proj1 (Permutation_count_occ pixel_eq_dec _ _) Hout).
  split; reflexivity.
Qed.

Lemma two_by_two_example_witness :
  exists bw,
    silhouette two_by_two = Some bw /\
    width bw = 2%nat /\ height bw = 2%nat /\
    count (0, 0, 0, 255) (getdata bw) = 1%nat /\
    count (255, 255, 255, 255) (getdata bw) = 3%nat.
Proof.
  apply (two_by_two_example (getdata two_by_two) 0 0 0 0 0 0 0 0 0).
  apply Permutation_refl.
Defined.

(** C10.  For every source bitmap, the silhouette has the dimensions and
    the pixel count of the source, each of its pixels is [(0, 0, 0, 255)] or
    [(255, 255, 255, 255)], hence fully opaque, and the pixel at a position
    depends only on the source pixel at that position. *)
Theorem silhouette_shape (img : image) :
  well_formed img ->
  exists bw,
    silhouette img = Some bw /\
    width bw = width img /\ height bw = height img /\
    List.length (getdata bw) = List.length (getdata img) /\
    well_formed bw /\
    (forall q, In q (getdata bw) ->
               (q = (0, 0, 0, 255) \/ q = (255, 255, 255, 255)) /\ snd q = 255) /\
    (forall i, nth_error (getdata bw) i
               = option_map classify (nth_error (getdata img) i)) /\
    (forall img' bw' i,
        well_formed img' -> silhouette img' = Some bw' ->
        nth_error (getdata img') i = nth_error (getdata img) i ->
        nth_error (getdata bw') i = nth_error (getdata bw) i).
Proof.
  intros Hwf. eexists; split; [apply silhouette_total, Hwf|].
  cbn [getdata width height].
  split; [reflexivity|]. split; [reflexivity|].
  split; [apply length_map|].
  split; [unfold well_formed; cbn [getdata width height];
          rewrite length_map; exact Hwf|].
  split.
  { intros q Hq. apply in_map_iff in Hq. destruct Hq as (p & <- & _).
    destruct (classify_cases p) as [-> | ->]; split; auto. }
  split; [intros i; apply nth_error_map|].
  intros img' bw' i Hwf' Hs' Hi.
  rewrite (silhouette_total img' Hwf') in Hs'. injection Hs' as <-.
  cbn [getdata]. now rewrite !nth_error_map, Hi.
Qed.

Lemma silhouette_shape_witness :
  well_formed two_by_two /\
  exists bw,
    silhouette two_by_two = Some bw /\
    width bw = width two_by_two /\ height bw = height two_by_two /\
    List.length (getdata bw) = List.length (getdata two_by_two) /\
    well_formed bw /\
    (forall q, In q (getdata bw) ->
               (q = (0, 0, 0, 255) \/ q = (255, 255, 255, 255)) /\ snd q = 255) /\
    (forall i, nth_error (getdata bw) i
               = option_map classify (nth_error (getdata two_by_two) i)) /\
    (forall img' bw' i,
        well_formed img' -> silhouette img' = Some bw' ->
        nth_error (getdata img') i = nth_error (getdata two_by_two) i ->
        nth_error (getdata bw') i = nth_error (getdata bw) i).
Proof.
  split; [reflexivity | apply (silhouette_shape two_by_two); reflexivity].
Defined.

End SilhouetteExamples.


(** ** Further properties of the silhouette *)

Section SilhouetteMore.
Import Bitmap Spec Inputs.

Lemma classify_idempotent (item : pixel) : classify (classify item) = classify item.
Proof. destruct (classify_cases item) as [-> | ->]; reflexivity. Qed.

(** X1.  Classifying a silhouette again changes nothing: the silhouette of a
    silhouette is that silhouette. *)
Theorem silhouette_idempotent (img bw : image) :
  well_formed img -> silhouette img = Some bw -> silhouette bw = Some bw.
Proof.
  intros Hwf Hbw. rewrite (silhouette_total img Hwf) in Hbw.
  injection Hbw as <-.
  rewrite silhouette_total.
  - cbn [getdata width height]. rewrite map_map.
    do 2 f_equal. apply map_ext. intros p. apply classify_idempotent.
  - unfold well_formed; cbn [getdata width height]. rewrite length_map. exact Hwf.
Qed.

Lemma silhouette_idempotent_witness :
  silhouette (Image 2 2 [black; white; white; white])
  = Some (Image 2 2 [black; white; white; white]).
Proof.
  apply (silhouette_idempotent two_by_two_red); reflexivity.
Defined.

Lemma filter_partition_length {A} (f : A -> bool) (l : list A) :
  (List.length (List.filter f l)
   + List.length (List.filter (fun x => negb (f x)) l))%nat
  = List.length l.
Proof.
  induction l as [|x l IH]; [reflexivity|]. simpl.
  destruct (f x); simpl; lia.
Qed.

(** X2.  The silhouette has as many black pixels as the source has
    foreground pixels, and every other pixel of it is white: black and
    white together number width times height. *)
Theorem silhouette_counts (img bw : image) :
  well_formed img -> silhouette img = Some bw ->
  count black (getdata bw) = List.length (List.filter is_foreground (getdata img))
  /\ (count black (getdata bw) + count white (getdata bw))%nat
     = (width img * height img)%nat.
Proof.
  intros Hwf Hbw. rewrite (silhouette_total img Hwf) in Hbw.
  injection Hbw as <-. cbn [getdata].
  rewrite count_map_classify_black, count_map_classify_white.
  split; [reflexivity|]. rewrite filter_partition_length. exact Hwf.
Qed.

Lemma silhouette_counts_witness :
  count black [black; white; white; white]
  = List.length (List.filter is_foreground (getdata two_by_two_red))
  /\ (count black [black; white; white; white]
      + count white [black; white; white; white])%nat
     = (width two_by_two_red * height two_by_two_red)%nat.
Proof.
  apply (silhouette_counts two_by_two_red (Image 2 2 [black; white; white; white]));
    reflexivity.
Defined.

End SilhouetteMore.
(** ** The matcher *)

Section MatcherFacts.
Import Re Spec.

Lemma startswith_spec (needle hay : text) :
  startswith needle hay = true <-> exists post, hay = needle ++ post.
Proof.
  revert hay; induction needle as [|x needle IH]; intros hay; simpl.
  - split; [intros _; now exists hay | reflexivity].
  - destruct hay as [|y hay].
    + split; [discriminate | intros (post & H); discriminate H].
    + rewrite andb_true_iff, N.eqb_eq, IH. split.
      * intros (-> & post & ->). now exists post.
      * intros (post & H). injection H as -> ->. split; [reflexivity | now exists post].
Qed.

Lemma contains_spec (needle hay : text) :
  contains needle hay = true <-> occurs needle hay.
Proof.
  unfold occurs. induction hay as [|y hay IH]; simpl.
  - rewrite orb_false_r, startswith_spec. split.
    + intros (post & H). now exists [], post.
    + intros (pre & post & H). symmetry in H.
      apply app_eq_nil in H as [-> H]. now exists post.
  - rewrite orb_true_iff, startswith_spec, IH. split.
    + intros [(post & H) | (pre & post & H)].
      * now exists [], post.
      * exists (y :: pre), post. now rewrite H.
    + intros (pre & post & H). destruct pre as [|z pre].
      * left. now exists post.
      * right. injection H as -> H. now exists pre, post.
Qed.

(** A match never extends past the end of the text. *)
Lemma greedy_le (c : char) (k : text -> option nat) :
  (forall s n, k s = Some n -> (n <= List.length s)%nat) ->
  forall s n, greedy c k s = Some n -> (n <= List.length s)%nat.
Proof.
  intros Hk s; induction s as [|x s IH]; intros n; simpl.
  - apply (Hk []).
  - destruct (N.eqb x c); [apply (Hk (x :: s))|].
    destruct (greedy c k s) as [m|] eqn:Hg.
    + intros [= <-]. specialize (IH m eq_refl). lia.
    + apply (Hk (x :: s)).
Qed.

Lemma match_here_le (r : regex) :
  forall s n, match_here r s = Some n -> (n <= List.length s)%nat.
Proof.
  induction r as [|[c|c|c] r IH]; intros s n; simpl.
  - intros [= <-]. lia.
  - destruct s as [|x s]; [discriminate|].
    destruct (N.eqb x c); [|discriminate].
    destruct (match_here r s) as [m|] eqn:Hm; [|discriminate].
    intros [= <-]. specialize (IH _ _ Hm). simpl; lia.
  - destruct s as [|x s]; [discriminate|].
    destruct (N.eqb x c); [discriminate|].
    destruct (greedy c (match_here r) s) as [m|] eqn:Hm; [|discriminate].
    intros [= <-]. apply (greedy_le c _ IH) in Hm. simpl; lia.
  - apply (greedy_le c _ IH).
Qed.

(** What a greedy run has matched: characters other than [c], then what the
    rest of the pattern matched. *)
Lemma greedy_sound (c : char) (k : text -> option nat) :
  forall s n, greedy c k s = Some n ->
  exists run rest m,
    s = run ++ rest /\ ~ In c run /\ k rest = Some m
    /\ n = (List.length run + m)%nat.
Proof.
  intros s; induction s as [|x s IH]; intros n; simpl.
  - intros Hk. exists [], [], n. auto.
  - destruct (N.eqb x c) eqn:Hx.
    + intros Hk. exists [], (x :: s), n. auto.
    + destruct (greedy c k s) as [m|] eqn:Hg.
      * intros [= <-]. destruct (IH m eq_refl) as (run & rest & j & -> & Hrun & Hj & ->).
        exists (x :: run), rest, j. repeat split; auto.
        intros [E | Hin]; [|now apply Hrun].
        subst x. now rewrite N.eqb_refl in Hx.
      * intros Hk. exists [], (x :: s), n. auto.
Qed.

(** A greedy run succeeds as soon as some split of the text does. *)
Lemma greedy_complete (c : char) (k : text -> option nat) :
  forall run rest m,
    ~ In c run -> k rest = Some m ->
    exists n, greedy c k (run ++ rest) = Some n.
Proof.
  intros run rest m; induction run as [|x run IH]; intros Hrun Hk.
  - destruct rest as [|y rest]; simpl; [eauto|].
    destruct (N.eqb y c); [eauto|].
    destruct (greedy c k rest); eauto.
  - simpl. destruct (N.eqb x c) eqn:Hx.
    + apply N.eqb_eq in Hx. exfalso; apply Hrun; now left.
    + destruct IH as (n & ->); [|exact Hk|eauto].
      intros Hin; apply Hrun; now right.
Qed.

(** Literal characters at the head of a pattern. *)
Lemma match_here_literal (l : text) (r : regex) (s : text) (n : nat) :
  match_here (map Chr l ++ r) s = Some n <->
  exists s' n', s = l ++ s' /\ match_here r s' = Some n'
                /\ n = (List.length l + n')%nat.
Proof.
  revert s n; induction l as [|x l IH]; intros s n.
  - simpl. split; [intros H; now exists s, n | intros (s' & n' & -> & H & ->); exact H].
  - cbn [map app match_here]. destruct s as [|y s].
    + split; [discriminate | intros (s' & n' & H & _); discriminate H].
    + destruct (N.eqb y x) eqn:Hy.
      * apply N.eqb_eq in Hy; subst y. split.
        -- destruct (match_here (map Chr l ++ r) s) as [j|] eqn:Hj; [|discriminate].
           intros [= <-]. apply IH in Hj as (s' & n' & -> & H & ->).
           exists s', n'. auto.
        -- intros (s' & n' & [= ->] & H & ->).
           assert (Hj : match_here (map Chr l ++ r) (l ++ s') = Some (List.length l + n')%nat)
             by (apply IH; eauto).
           now rewrite Hj.
      * split; [discriminate|].
        intros (s' & n' & [= -> ->] & _). now rewrite N.eqb_refl in Hy.
Qed.

End MatcherFacts.

(** ** The scan *)

Section ScanFacts.
Import Re Spec.
Variable r : regex.

Lemma scan_skip (m rest : text) :
  scan r (List.length m) (m ++ rest) = scan r O rest.
Proof. induction m as [|x m IH]; simpl; [now destruct rest | exact IH]. Qed.

Lemma scan_gap (c : char) (s : text) :
  match_here r (c :: s) = None \/ match_here r (c :: s) = Some O ->
  scan r O (c :: s) = Gap c :: scan r O s.
Proof. intros [H | H]; cbn [scan]; now rewrite H. Qed.

Lemma scan_hit (m rest : text) :
  m <> [] ->
  match_here r (m ++ rest) = Some (List.length m) ->
  scan r O (m ++ rest) = Hit m :: scan r O rest.
Proof.
  destruct m as [|x m]; [congruence|]. intros _ H.
  cbn [app List.length] in H. cbn [app scan]. rewrite H.
  rewrite scan_skip. cbn [firstn]. now rewrite take_app_length.
Qed.

Lemma scan_scans (s : text) : scans r s (scan r O s).
Proof.
  remember (List.length s) as len eqn:Hlen.
  revert s Hlen; induction len as [len IH] using lt_wf_ind; intros s Hlen.
  destruct s as [|c s]; [constructor|].
  destruct (match_here r (c :: s)) as [[|n]|] eqn:Hm.
  - rewrite scan_gap by auto. constructor; [auto|].
    apply (IH (List.length s)); [subst; simpl; lia | reflexivity].
  - pose proof (match_here_le _ _ _ Hm) as Hle.
    set (m := firstn (S n) (c :: s)). set (rest := skipn (S n) (c :: s)).
    assert (Hsplit : c :: s = m ++ rest) by (symmetry; apply firstn_skipn).
    assert (Hlm : List.length m = S n) by (apply firstn_length_le; exact Hle).
    assert (Hne : m <> []) by (intros E; rewrite E in Hlm; discriminate).
    rewrite Hsplit in Hm |- *. rewrite <- Hlm in Hm.
    rewrite scan_hit by assumption.
    constructor; try assumption.
    apply (IH (List.length rest)); [|reflexivity].
    subst len. rewrite Hsplit, length_app. lia.
  - rewrite scan_gap by auto. constructor; [auto|].
    apply (IH (List.length s)); [subst; simpl; lia | reflexivity].
Qed.

Lemma scans_unique (s : text) (ts : list token) :
  scans r s ts -> ts = scan r O s.
Proof.
  induction 1 as [|c s ts Hm _ IH|m rest ts Hne Hm _ IH].
  - reflexivity.
  - rewrite scan_gap by exact Hm. now rewrite IH.
  - rewrite scan_hit by assumption. now rewrite IH.
Qed.

(** Scanning loses nothing: the tokens spell the text. *)
Lemma scan_spells (s : text) :
  flat_map (fun t => match t with Hit m => m | Gap c => [c] end) (scan r O s)
  = s.
Proof.
  pose proof (scan_scans s) as H.
  induction H as [|c s ts Hm _ IH|m rest ts Hne Hm _ IH]; simpl;
    [reflexivity | now rewrite IH | now rewrite IH].
Qed.

(** Characters that cannot start a match are passed over. *)
Lemma scan_prefix_gaps (x : char) (r' : regex) (pre s : text) :
  r = Chr x :: r' -> ~ In x pre ->
  scan r O (pre ++ s) = map Gap pre ++ scan r O s.
Proof.
  intros Hr. induction pre as [|c pre IH]; intros Hpre; [reflexivity|].
  cbn [app map]. rewrite scan_gap.
  - f_equal. apply IH. intros Hin; apply Hpre; now right.
  - left. rewrite Hr. cbn [match_here].
    destruct (N.eqb c x) eqn:Hc; [|reflexivity].
    apply N.eqb_eq in Hc. exfalso; apply Hpre; now left.
Qed.

End ScanFacts.

(** ** The two patterns of the script *)

Section PatternFacts.
Import Re Svg Spec.

(** The first occurrence of a character splits a text in one way only. *)
Lemma first_split_unique (x : char) (l1 l2 r1 r2 : text) :
  l1 ++ x :: r1 = l2 ++ x :: r2 -> ~ In x l1 -> ~ In x l2 ->
  l1 = l2 /\ r1 = r2.
Proof.
  revert l2; induction l1 as [|a l1 IH]; intros [|b l2] H H1 H2; simpl in *.
  - injection H as ->. auto.
  - injection H as -> _. exfalso; apply H2; now left.
  - injection H as -> _. exfalso; apply H1; now left.
  - injection H as -> H. destruct (IH l2 H) as [-> ->]; auto.
Qed.

Lemma split_at_first (x : char) (l : text) :
  In x l -> exists l1 l2, l = l1 ++ x :: l2 /\ ~ In x l1.
Proof.
  induction l as [|a l IH]; [intros []|]. intros Hin.
  destruct (N.eq_dec a x) as [-> | Hne].
  - exists [], l. auto.
  - destruct Hin as [E | Hin]; [contradiction|].
    destruct (IH Hin) as (l1 & l2 & -> & Hl1).
    exists (a :: l1), l2. split; [reflexivity|].
    intros [E | H]; [contradiction | now apply Hl1].
Qed.

Lemma match_path_sound (s : text) (n : nat) :
  match_here path_re s = Some n ->
  exists body rest,
    s = (path_open ++ body ++ path_close) ++ rest
    /\ body <> [] /\ ~ In (chr ">") body
    /\ n = List.length (path_open ++ body ++ path_close).
Proof.
  unfold path_re. intros H.
  apply match_here_literal in H as (s1 & n1 & -> & H & ->).
  cbn [app match_here] in H. destruct s1 as [|x s1]; [discriminate|].
  destruct (N.eqb x (chr ">")) eqn:Hx; [discriminate|].
  destruct (greedy _ _ s1) as [m|] eqn:Hg; [|discriminate].
  injection H as <-.
  apply greedy_sound in Hg as (run & rest0 & j & -> & Hrun & Hj & ->).
  rewrite <- (app_nil_r (map Chr path_close)) in Hj.
  apply match_here_literal in Hj as (rest & j' & -> & Hj & ->).
  injection Hj as <-.
  exists (x :: run), rest. repeat split.
  - now rewrite <- !app_assoc.
  - discriminate.
  - intros [E | Hin]; [|now apply Hrun].
    subst x. discriminate Hx.
  - rewrite !length_app. simpl. lia.
Qed.

Lemma match_path_complete (body rest : text) :
  body <> [] -> ~ In (chr ">") body ->
  match_here path_re ((path_open ++ body ++ path_close) ++ rest)
  = Some (List.length (path_open ++ body ++ path_close)).
Proof.
  intros Hne Hbody. destruct body as [|x run]; [congruence|].
  assert (Hx : N.eqb x (chr ">") = false).
  { apply N.eqb_neq. intros ->. apply Hbody; now left. }
  assert (Hrun : ~ In (chr ">") run) by (intros H; apply Hbody; now right).
  unfold path_re. apply match_here_literal.
  exists ((x :: run) ++ path_close ++ rest), (S (List.length run + 2)).
  split; [now rewrite <- !app_assoc|].
  split; [|rewrite !length_app; simpl; lia].
  cbn [app match_here]. rewrite Hx.
  set (k := match_here (map Chr path_close)).
  assert (Hk : k (path_close ++ rest) = Some 2%nat) by reflexivity.
  destruct (greedy_complete (chr ">") k run _ _ Hrun Hk) as (n & Hn).
  rewrite Hn. cbn [option_map]. do 2 f_equal.
  apply greedy_sound in Hn as (run' & rest0 & j & Heq & Hrun' & Hj & ->).
  unfold k in Hj. rewrite <- (app_nil_r (map Chr path_close)) in Hj.
  apply match_here_literal in Hj as (rest' & j' & -> & Hj & ->).
  injection Hj as <-.
  change (path_close ++ rest) with ((chr "/") :: (chr ">") :: rest) in Heq.
  change (path_close ++ rest') with ((chr "/") :: (chr ">") :: rest') in Heq.
  change (run ++ (chr "/") :: (chr ">") :: rest)
    with (run ++ [(chr "/")] ++ (chr ">") :: rest) in Heq.
  change (run' ++ (chr "/") :: (chr ">") :: rest')
    with (run' ++ [(chr "/")] ++ (chr ">") :: rest') in Heq.
  rewrite !app_assoc in Heq.
  apply first_split_unique in Heq as [Heq _].
  - apply (f_equal (@List.length _)) in Heq. rewrite !length_app in Heq.
    simpl in Heq |- *. lia.
  - rewrite in_app_iff. intros [H | [H | []]]; [now apply Hrun | discriminate H].
  - rewrite in_app_iff. intros [H | [H | []]]; [now apply Hrun' | discriminate H].
Qed.

Lemma match_fill_sound (s : text) (n : nat) :
  match_here fill_re s = Some n ->
  exists v rest,
    s = (fill_open ++ v ++ [dquote]) ++ rest
    /\ ~ In dquote v
    /\ n = List.length (fill_open ++ v ++ [dquote]).
Proof.
  unfold fill_re. intros H.
  apply match_here_literal in H as (s1 & n1 & -> & H & ->).
  cbn [app match_here] in H.
  apply greedy_sound in H as (run & rest0 & j & -> & Hrun & Hj & ->).
  destruct rest0 as [|y rest]; [discriminate|]. cbn [match_here] in Hj.
  destruct (N.eqb y dquote) eqn:Hy; [|discriminate].
  apply N.eqb_eq in Hy; subst y. injection Hj as <-.
  exists run, rest. repeat split.
  - now rewrite <- !app_assoc.
  - exact Hrun.
  - rewrite !length_app. simpl. lia.
Qed.

Lemma match_fill_complete (v rest : text) :
  ~ In dquote v ->
  match_here fill_re ((fill_open ++ v ++ [dquote]) ++ rest)
  = Some (List.length (fill_open ++ v ++ [dquote])).
Proof.
  intros Hv. unfold fill_re. apply match_here_literal.
  exists (v ++ dquote :: rest), (List.length v + 1)%nat.
  split; [now rewrite <- !app_assoc|].
  split; [|rewrite !length_app; simpl; lia].
  change (greedy dquote (match_here [Chr dquote]) (v ++ dquote :: rest)
          = Some (List.length v + 1)%nat).
  set (k := match_here [Chr dquote]).
  assert (Hk : k (dquote :: rest) = Some 1%nat) by reflexivity.
  destruct (greedy_complete dquote k v _ _ Hv Hk) as (n & Hn).
  rewrite Hn. f_equal.
  apply greedy_sound in Hn as (run' & rest0 & j & Heq & Hrun' & Hj & ->).
  unfold k in Hj. destruct rest0 as [|y rest']; [discriminate|].
  cbn [match_here] in Hj.
  destruct (N.eqb y dquote) eqn:Hy; [|discriminate].
  apply N.eqb_eq in Hy; subst y. injection Hj as <-.
  apply first_split_unique in Heq as [<- _]; auto.
Qed.

(** Neither pattern has an empty match. *)
Lemma match_path_nonempty (s : text) : match_here path_re s <> Some O.
Proof.
  intros H. apply match_path_sound in H as (body & rest & _ & _ & _ & H).
  rewrite length_app in H. discriminate H.
Qed.

Lemma match_fill_nonempty (s : text) : match_here fill_re s <> Some O.
Proof.
  intros H. apply match_fill_sound in H as (v & rest & _ & _ & H).
  rewrite length_app in H. discriminate H.
Qed.

End PatternFacts.

(** ** Rewriting the fill attribute *)

Section FillFacts.
Import Re Svg Spec.

Lemma rewrite_fill_scan (s : text) :
  rewrite_fill s = flat_map (token_subst placeholder_fill) (scan fill_re O s).
Proof. reflexivity. Qed.

Lemma placeholder_shape :
  placeholder_fill = fill_open ++ lit "currentColor" ++ [dquote].
Proof. reflexivity. Qed.

(** A match of the fill pattern is an attribute in double quotes. *)
Lemma fill_hit_shape (m rest : text) :
  match_here fill_re (m ++ rest) = Some (List.length m) ->
  exists v, m = fill_open ++ v ++ [dquote] /\ ~ In dquote v.
Proof.
  intros H. apply match_fill_sound in H as (v & rest' & Heq & Hv & Hlen).
  apply app_inj_1 in Heq as [-> _]; [|exact Hlen]. eauto.
Qed.

Lemma quote_split (x tail y rest : text) :
  x ++ tail = (y ++ [dquote]) ++ rest -> ~ In dquote tail ->
  exists l, x = (y ++ [dquote]) ++ l.
Proof.
  intros Heq Htail. apply List.app_eq_app in Heq as (l & [[-> _] | [Hy ->]]).
  - now exists l.
  - induction l as [|z l' _] using rev_ind.
    + exists []. now rewrite Hy, !app_nil_r.
    + rewrite app_assoc in Hy. apply app_inj_tail in Hy as [_ <-].
      exfalso; apply Htail. rewrite !in_app_iff; simpl; auto.
Qed.

(** Appending text without a double quote does not change what is matched
    before it. *)
Lemma match_fill_app (s tail : text) :
  ~ In dquote tail ->
  match_here fill_re (s ++ tail) = match_here fill_re s.
Proof.
  intros Htail.
  destruct (match_here fill_re (s ++ tail)) as [n|] eqn:H1.
  - apply match_fill_sound in H1 as (v & rest & Heq & Hv & ->).
    rewrite app_assoc in Heq.
    destruct (quote_split _ _ _ _ Heq Htail) as (l & ->).
    rewrite <- (app_assoc fill_open v [dquote]).
    now rewrite match_fill_complete.
  - destruct (match_here fill_re s) as [n|] eqn:H2; [|reflexivity].
    apply match_fill_sound in H2 as (v & rest & -> & Hv & ->).
    rewrite <- app_assoc, match_fill_complete in H1 by exact Hv.
    discriminate H1.
Qed.

Lemma scan_fill_noquote (t : text) :
  ~ In dquote t -> scan fill_re O t = map Gap t.
Proof.
  induction t as [|c t IH]; intros Ht; [reflexivity|].
  rewrite scan_gap.
  - cbn [map]. f_equal. apply IH. intros H; apply Ht; now right.
  - left. destruct (match_here fill_re (c :: t)) as [n|] eqn:Hm; [|reflexivity].
    apply match_fill_sound in Hm as (v & rest & Heq & _ & _).
    exfalso; apply Ht. rewrite Heq, !in_app_iff. simpl; auto.
Qed.

Lemma scan_fill_app (body tail : text) :
  ~ In dquote tail ->
  scan fill_re O (body ++ tail) = scan fill_re O body ++ map Gap tail.
Proof.
  intros Htail.
  enough (Hgen : forall ts, scans fill_re body ts ->
                            scan fill_re O (body ++ tail) = ts ++ map Gap tail)
    by (apply Hgen, scan_scans).
  intros ts H. induction H as [|c s ts Hm _ IH|m rest ts Hne Hm _ IH].
  - now apply scan_fill_noquote.
  - cbn [app]. rewrite scan_gap; [now rewrite IH|].
    change (c :: s ++ tail) with ((c :: s) ++ tail).
    now rewrite match_fill_app.
  - rewrite <- app_assoc. rewrite scan_hit; [now rewrite IH | exact Hne |].
    rewrite app_assoc. now rewrite match_fill_app.
Qed.

Lemma rewrite_fill_app (body tail : text) :
  ~ In dquote tail -> rewrite_fill (body ++ tail) = rewrite_fill body ++ tail.
Proof.
  intros Htail. rewrite !rewrite_fill_scan, scan_fill_app by exact Htail.
  rewrite flat_map_app. f_equal.
  clear. induction tail as [|c tail IH]; simpl; [reflexivity | now rewrite IH].
Qed.

Lemma rewrite_fill_prefix (pre s : text) :
  ~ In (chr "f") pre -> rewrite_fill (pre ++ s) = pre ++ rewrite_fill s.
Proof.
  intros Hpre. rewrite !rewrite_fill_scan.
  rewrite (scan_prefix_gaps fill_re (chr "f") _ pre s eq_refl Hpre).
  rewrite flat_map_app. f_equal.
  clear. induction pre as [|c pre IH]; simpl; [reflexivity | now rewrite IH].
Qed.

(** Equations of [rewrite_fill] along the scan. *)
Lemma rewrite_fill_gap (c : char) (s : text) :
  match_here fill_re (c :: s) = None ->
  rewrite_fill (c :: s) = c :: rewrite_fill s.
Proof. intros H. rewrite !rewrite_fill_scan, scan_gap by auto. reflexivity. Qed.

Lemma rewrite_fill_hit (m rest : text) :
  m <> [] -> match_here fill_re (m ++ rest) = Some (List.length m) ->
  rewrite_fill (m ++ rest) = placeholder_fill ++ rewrite_fill rest.
Proof. intros Hne H. rewrite !rewrite_fill_scan, scan_hit by auto. reflexivity. Qed.

(** Induction along the scan of the fill pattern. *)
Lemma fill_scan_ind (P : text -> Prop) :
  P [] ->
  (forall c s, match_here fill_re (c :: s) = None -> P s -> P (c :: s)) ->
  (forall v rest, ~ In dquote v -> P rest ->
                  P ((fill_open ++ v ++ [dquote]) ++ rest)) ->
  forall s, P s.
Proof.
  intros Hnil Hgap Hhit s. pose proof (scan_scans fill_re s) as H.
  induction H as [|c s ts Hm _ IH|m rest ts Hne Hm _ IH].
  - exact Hnil.
  - apply Hgap; [|exact IH].
    destruct Hm as [Hm | Hm]; [exact Hm | now apply match_fill_nonempty in Hm].
  - destruct (fill_hit_shape _ _ Hm) as (v & -> & Hv). now apply Hhit.
Qed.

Lemma rewrite_fill_hit' (v rest : text) :
  ~ In dquote v ->
  rewrite_fill ((fill_open ++ v ++ [dquote]) ++ rest)
  = placeholder_fill ++ rewrite_fill rest.
Proof.
  intros Hv. apply rewrite_fill_hit; [discriminate|].
  now apply match_fill_complete.
Qed.

Lemma rewrite_fill_chars (c : char) (s : text) :
  In c (rewrite_fill s) -> In c s \/ In c placeholder_fill.
Proof.
  induction s as [|x s Hm IH|v rest Hv IH] using fill_scan_ind.
  - intros [].
  - rewrite rewrite_fill_gap by exact Hm. simpl.
    intros [-> | H]; [auto | destruct (IH H); auto].
  - rewrite rewrite_fill_hit' by exact Hv. rewrite !in_app_iff.
    intros [H | H]; [auto | destruct (IH H); auto].
Qed.

Lemma rewrite_fill_nonempty (s : text) : s <> [] -> rewrite_fill s <> [].
Proof.
  induction s as [|x s Hm _|v rest Hv _] using fill_scan_ind.
  - congruence.
  - rewrite rewrite_fill_gap by exact Hm. discriminate.
  - rewrite rewrite_fill_hit' by exact Hv. discriminate.
Qed.

Lemma rewrite_fill_quote (s : text) :
  In dquote (rewrite_fill s) -> In dquote s.
Proof.
  induction s as [|x s Hm IH|v rest Hv IH] using fill_scan_ind.
  - intros [].
  - rewrite rewrite_fill_gap by exact Hm. simpl. intuition.
  - rewrite rewrite_fill_hit' by exact Hv. rewrite !in_app_iff. simpl. intuition.
Qed.

(** The first six characters survive rewriting: a replaced attribute and
    its replacement begin alike. *)
Lemma rewrite_fill_firstn (s : text) :
  forall n, (n <= 6)%nat -> firstn n (rewrite_fill s) = firstn n s.
Proof.
  induction s as [|x s Hm IH|v rest Hv IH] using fill_scan_ind; intros n Hn.
  - reflexivity.
  - rewrite rewrite_fill_gap by exact Hm. destruct n as [|n]; [reflexivity|].
    cbn [firstn]. f_equal. apply IH. lia.
  - rewrite rewrite_fill_hit' by exact Hv.
    rewrite placeholder_shape, <- !app_assoc.
    rewrite !(take_app_le fill_open) by (simpl; lia). reflexivity.
Qed.

(** Rewriting a self-closing path element leaves one. *)
Lemma rewrite_fill_path (p : text) :
  self_closing_path p -> self_closing_path (rewrite_fill p).
Proof.
  intros (body & -> & Hne & Hgt). exists (rewrite_fill body).
  split; [|split].
  - rewrite rewrite_fill_prefix, rewrite_fill_app; [reflexivity | |].
    + intros [H | [H | []]]; discriminate H.
    + unfold path_open. simpl. intuition discriminate.
  - now apply rewrite_fill_nonempty.
  - intros H. apply rewrite_fill_chars in H as [H | H]; [now apply Hgt|].
    unfold placeholder_fill in H. simpl in H. intuition discriminate.
Qed.

End FillFacts.

(** ** Attributes and elements after rewriting *)

Section DocumentFacts.
Import Re Svg Spec.
Variable unicode_lower : text -> nat -> char -> list char.

Lemma not_in_by_eval (x : char) (l : text) :
  existsb (N.eqb x) l = false -> ~ In x l.
Proof.
  intros H Hin. assert (existsb (N.eqb x) l = true); [|congruence].
  apply existsb_exists. exists x. split; [exact Hin | apply N.eqb_refl].
Qed.

(** Where no attribute was found before rewriting, none is found after. *)
Lemma match_fill_rewritten (x : char) (s : text) :
  match_here fill_re (x :: s) = None ->
  match_here fill_re (x :: rewrite_fill s) = None.
Proof.
  intros Hm.
  destruct (match_here fill_re (x :: rewrite_fill s)) as [n|] eqn:E;
    [exfalso | reflexivity].
  apply match_fill_sound in E as (v & rest & Heq & Hv & _).
  set (tl := tail fill_open).
  change (x :: rewrite_fill s = chr "f" :: (tl ++ ((v ++ [dquote]) ++ rest)))
    in Heq.
  assert (Hx : x = chr "f") by congruence.
  assert (Hrw : rewrite_fill s = tl ++ ((v ++ [dquote]) ++ rest)) by congruence.
  clear Heq.
  assert (H5 : firstn 5 s = tl).
  { rewrite <- rewrite_fill_firstn by lia. rewrite Hrw.
    now rewrite (take_app_length' tl). }
  assert (Hs : s = tl ++ skipn 5 s) by (now rewrite <- H5, firstn_skipn).
  set (s2 := skipn 5 s) in Hs.
  rewrite Hs, rewrite_fill_prefix in Hrw
    by (apply not_in_by_eval; reflexivity).
  apply app_inv_head in Hrw.
  assert (Hq : In dquote s2).
  { apply rewrite_fill_quote. rewrite Hrw, !in_app_iff. simpl; auto. }
  apply split_at_first in Hq as (l1 & l2 & Hs2 & Hl1).
  assert (Hshape : x :: s = (fill_open ++ l1 ++ [dquote]) ++ l2).
  { rewrite Hx, Hs, Hs2. now rewrite <- !app_assoc. }
  rewrite Hshape, match_fill_complete in Hm by exact Hl1. discriminate Hm.
Qed.

(** Scanning a rewritten text finds the attributes where they were, each
    now the placeholder. *)
Lemma scan_rewritten (s : text) :
  scan fill_re O (rewrite_fill s)
  = map (fun t => match t with
                  | Hit _ => Hit placeholder_fill
                  | Gap c => Gap c
                  end) (scan fill_re O s).
Proof.
  induction s as [|x s Hm IH|v rest Hv IH] using fill_scan_ind.
  - reflexivity.
  - rewrite rewrite_fill_gap by exact Hm.
    rewrite !scan_gap by (left; auto using match_fill_rewritten).
    cbn [map]. now rewrite IH.
  - rewrite rewrite_fill_hit' by exact Hv.
    rewrite scan_hit; [|discriminate|].
    + rewrite scan_hit; [|discriminate | now apply match_fill_complete].
      cbn [map]. now rewrite IH.
    + rewrite placeholder_shape. apply match_fill_complete.
      apply not_in_by_eval; reflexivity.
Qed.

Lemma findall_rewritten (s : text) :
  findall fill_re (rewrite_fill s)
  = map (fun _ => placeholder_fill) (findall fill_re s).
Proof.
  unfold findall. rewrite scan_rewritten.
  induction (scan fill_re O s) as [|[c|m] ts IH]; simpl;
    [reflexivity | exact IH | now rewrite IH].
Qed.

(** The matches of the path pattern are self-closing path elements of the
    text. *)
Lemma paths_sound (content p : text) :
  In p (paths content) -> self_closing_path p /\ occurs p content.
Proof.
  unfold paths, findall. pose proof (scan_scans path_re content) as H.
  induction H as [|c s ts Hm _ IH|m rest ts Hne Hm _ IH]; simpl.
  - intros [].
  - intros Hp. destruct (IH Hp) as (Hsc & pre & post & ->).
    split; [exact Hsc|]. now exists (c :: pre), post.
  - intros [<- | Hp].
    + split; [|now exists [], rest].
      apply match_path_sound in Hm as (body & rest' & Heq & Hb1 & Hb2 & Hlen).
      apply app_inj_1 in Heq as [-> _]; [|exact Hlen].
      now exists body.
    + destruct (IH Hp) as (Hsc & pre & post & ->).
      split; [exact Hsc|]. exists (m ++ pre), post. now rewrite <- app_assoc.
Qed.

Lemma black_paths_filter (content : text) :
  exists keep,
    black_paths unicode_lower content = List.filter keep (paths content).
Proof.
  unfold black_paths.
  destruct (List.filter (mentions_black unicode_lower) (paths content)) eqn:E.
  - now exists not_mentions_white.
  - exists (mentions_black unicode_lower). now rewrite E.
Qed.

Lemma black_paths_sub (content p : text) :
  In p (black_paths unicode_lower content) -> In p (paths content).
Proof.
  destruct (black_paths_filter content) as (keep & ->).
  intros H. now apply filter_In in H.
Qed.

Lemma fold_left_concat (f : text -> text) (l : list text) (acc : text) :
  fold_left (fun acc p => acc ++ f p) l acc = acc ++ concat (map f l).
Proof.
  revert acc; induction l as [|p l IH]; intros acc; simpl.
  - now rewrite app_nil_r.
  - now rewrite IH, app_assoc.
Qed.

Lemma svg_content_concat (bps : list text) :
  svg_content bps
  = svg_open
    ++ concat (map (fun p => rewrite_fill p ++ [newline]) bps)
    ++ svg_close.
Proof.
  unfold svg_content.
  rewrite (fold_left_concat (fun p => rewrite_fill p ++ [newline])).
  now rewrite <- app_assoc.
Qed.

(** Scanning the document for path elements: none in the opening tag, one
    per line after it, none in the closing tag. *)
Lemma scan_svg_open (s : text) :
  scan path_re O (svg_open ++ s) = map Gap svg_open ++ scan path_re O s.
Proof.
  set (tl := tail svg_open).
  change (svg_open ++ s) with ((chr "<") :: tl ++ s).
  rewrite scan_gap by (left; reflexivity).
  rewrite (scan_prefix_gaps path_re (chr "<") _ tl s eq_refl)
    by (apply not_in_by_eval; reflexivity).
  reflexivity.
Qed.

Lemma scan_element_line (e s : text) :
  self_closing_path e ->
  scan path_re O ((e ++ [newline]) ++ s)
  = Hit e :: Gap newline :: scan path_re O s.
Proof.
  intros (body & -> & Hne & Hgt). rewrite <- app_assoc.
  rewrite scan_hit; [|discriminate | now apply match_path_complete].
  cbn [app]. now rewrite scan_gap by (left; reflexivity).
Qed.

Lemma scan_lines (es : list text) (s : text) :
  (forall e, In e es -> self_closing_path e) ->
  findall path_re (concat (map (fun e => e ++ [newline]) es) ++ s)
  = es ++ findall path_re s.
Proof.
  unfold findall. induction es as [|e es IH]; intros Hes; [reflexivity|].
  cbn [map concat]. rewrite <- app_assoc, scan_element_line by (apply Hes; now left).
  cbn [flat_map token_hits app]. f_equal. apply IH.
  intros e' He'. apply Hes. now right.
Qed.

Lemma paths_svg_content (bps : list text) :
  (forall p, In p bps -> self_closing_path p) ->
  paths (svg_content bps) = map rewrite_fill bps.
Proof.
  intros Hbps. rewrite svg_content_concat. unfold paths, findall.
  rewrite scan_svg_open, flat_map_app.
  replace (flat_map token_hits (map Gap svg_open)) with (@nil text)
    by (now induction svg_open).
  cbn [app].
  replace (map (fun p => rewrite_fill p ++ [newline]) bps)
    with (map (fun e => e ++ [newline]) (map rewrite_fill bps))
    by (now rewrite map_map).
  fold (findall path_re (concat (map (fun e => e ++ [newline]) (map rewrite_fill bps))
                         ++ svg_close)).
  rewrite scan_lines.
  - change (findall path_re svg_close) with (@nil text). apply app_nil_r.
  - intros e He. apply in_map_iff in He as (p & <- & Hp).
    apply rewrite_fill_path, Hbps, Hp.
Qed.

End DocumentFacts.


(** ** Reading a text from left to right *)

Section LeftmostFacts.
Import Re Spec.
Variable r : regex.
Variable piece : text -> Prop.

(** The pattern [r] matches at the start of a text exactly the pieces. *)
Hypothesis match_sound :
  forall s n, match_here r s = Some n ->
              exists e rest, s = e ++ rest /\ piece e /\ n = List.length e.
Hypothesis match_complete :
  forall e rest, piece e -> match_here r (e ++ rest) = Some (List.length e).
Hypothesis piece_nonempty : forall e, piece e -> e <> [].

Lemma no_match_no_piece (c : char) (s : text) :
  match_here r (c :: s) = None \/ match_here r (c :: s) = Some O ->
  forall e post, c :: s = e ++ post -> ~ piece e.
Proof using match_complete piece_nonempty.
  intros Hm e post Heq He.
  rewrite Heq, (match_complete e post He) in Hm.
  destruct Hm as [Hm | Hm]; [discriminate|].
  injection Hm as Hlen. apply (piece_nonempty e He).
  now apply length_zero_iff_nil.
Qed.

Lemma no_piece_no_match (c : char) (s : text) :
  (forall e post, c :: s = e ++ post -> ~ piece e) ->
  match_here r (c :: s) = None.
Proof using match_sound.
  intros Hno. destruct (match_here r (c :: s)) as [n|] eqn:Hm; [|reflexivity].
  destruct (match_sound _ _ Hm) as (e & post & Heq & He & _).
  exfalso. exact (Hno e post Heq He).
Qed.

Lemma match_is_piece (m rest : text) :
  match_here r (m ++ rest) = Some (List.length m) -> piece m.
Proof using match_sound.
  intros Hm. destruct (match_sound _ _ Hm) as (e & rest' & Heq & He & Hlen).
  apply app_inj_1 in Heq as [-> _]; [exact He | exact Hlen].
Qed.

Lemma scans_reading (s : text) (ts : list token) :
  scans r s ts -> reading piece s (flat_map token_hits ts).
Proof using match_sound match_complete piece_nonempty.
  induction 1 as [|c s ts Hm _ IH|m rest ts Hne Hm _ IH]; cbn.
  - constructor.
  - constructor; [now apply no_match_no_piece | exact IH].
  - constructor; [now apply (match_is_piece m rest) | exact IH].
Qed.

Lemma scans_replacing (new : text) (s : text) (ts : list token) :
  scans r s ts -> replacing piece new s (flat_map (token_subst new) ts).
Proof using match_sound match_complete piece_nonempty.
  induction 1 as [|c s ts Hm _ IH|m rest ts Hne Hm _ IH]; cbn.
  - constructor.
  - constructor; [now apply no_match_no_piece | exact IH].
  - constructor; [now apply (match_is_piece m rest) | exact IH].
Qed.

Lemma reading_scans (s : text) (found : list text) :
  reading piece s found ->
  exists ts, scans r s ts /\ found = flat_map token_hits ts.
Proof using match_sound match_complete piece_nonempty.
  induction 1 as [|c s found Hno _ (ts & Hts & ->)|e rest found He _ (ts & Hts & ->)].
  - exists []. split; [constructor | reflexivity].
  - exists (Gap c :: ts). split; [|reflexivity].
    constructor; [left; now apply no_piece_no_match | exact Hts].
  - exists (Hit e :: ts). split; [|reflexivity].
    constructor; [now apply piece_nonempty | now apply match_complete | exact Hts].
Qed.

Lemma replacing_scans (new : text) (s out : text) :
  replacing piece new s out ->
  exists ts, scans r s ts /\ out = flat_map (token_subst new) ts.
Proof using match_sound match_complete piece_nonempty.
  induction 1 as [|c s out Hno _ (ts & Hts & ->)|e rest out He _ (ts & Hts & ->)].
  - exists []. split; [constructor | reflexivity].
  - exists (Gap c :: ts). split; [|reflexivity].
    constructor; [left; now apply no_piece_no_match | exact Hts].
  - exists (Hit e :: ts). split; [|reflexivity].
    constructor; [now apply piece_nonempty | now apply match_complete | exact Hts].
Qed.

(** [re.findall] is the one reading of the text for the pieces. *)
Lemma findall_reading (s : text) : reading piece s (findall r s).
Proof using match_sound match_complete piece_nonempty.
  apply scans_reading, scan_scans.
Qed.

Lemma reading_unique (s : text) (found : list text) :
  reading piece s found -> found = findall r s.
Proof using match_sound match_complete piece_nonempty.
  intros H. apply reading_scans in H as (ts & Hts & ->).
  now rewrite (scans_unique r s ts Hts).
Qed.

(** [re.sub] is the one replacement of the pieces of the text. *)
Lemma sub_replacing (new s : text) : replacing piece new s (sub r new s).
Proof using match_sound match_complete piece_nonempty.
  apply scans_replacing, scan_scans.
Qed.

Lemma replacing_unique (new s out : text) :
  replacing piece new s out -> out = sub r new s.
Proof using match_sound match_complete piece_nonempty.
  intros H. apply replacing_scans in H as (ts & Hts & ->).
  now rewrite (scans_unique r s ts Hts).
Qed.

End LeftmostFacts.

Section PieceFacts.
Import Re Svg Spec.

Lemma path_piece_sound (s : text) (n : nat) :
  match_here path_re s = Some n ->
  exists e rest, s = e ++ rest /\ self_closing_path e /\ n = List.length e.
Proof.
  intros H. apply match_path_sound in H as (body & rest & -> & Hne & Hgt & ->).
  exists (path_open ++ body ++ path_close), rest.
  split; [reflexivity|]. split; [now exists body | reflexivity].
Qed.

Lemma path_piece_complete (e rest : text) :
  self_closing_path e -> match_here path_re (e ++ rest) = Some (List.length e).
Proof. intros (body & -> & Hne & Hgt). now apply match_path_complete. Qed.

Lemma path_piece_nonempty (e : text) : self_closing_path e -> e <> [].
Proof. intros (body & -> & _). discriminate. Qed.

Lemma fill_piece_sound (s : text) (n : nat) :
  match_here fill_re s = Some n ->
  exists e rest, s = e ++ rest /\ fill_attribute e /\ n = List.length e.
Proof.
  intros H. apply match_fill_sound in H as (v & rest & -> & Hv & ->).
  exists (fill_open ++ v ++ [dquote]), rest.
  split; [reflexivity|]. split; [now exists v | reflexivity].
Qed.

Lemma fill_piece_complete (e rest : text) :
  fill_attribute e -> match_here fill_re (e ++ rest) = Some (List.length e).
Proof. intros (v & -> & Hv). now apply match_fill_complete. Qed.

Lemma fill_piece_nonempty (e : text) : fill_attribute e -> e <> [].
Proof. intros (v & -> & _). discriminate. Qed.

(** Line 71 reads the text for self-closing path elements from left to
    right without overlap, and there is one such reading. *)
Lemma paths_shape_elements (content : text) :
  shape_elements content (paths content).
Proof.
  apply (findall_reading path_re self_closing_path);
    auto using path_piece_sound, path_piece_complete, path_piece_nonempty.
Qed.

Lemma shape_elements_unique (content : text) (es : list text) :
  shape_elements content es -> es = paths content.
Proof.
  apply (reading_unique path_re self_closing_path);
    auto using path_piece_sound, path_piece_complete, path_piece_nonempty.
Qed.

(** Line 81 reads the element for fill attributes in double quotes in the
    same way, replaces each and keeps every other character. *)
Lemma rewrite_fill_replacing (p : text) :
  replacing fill_attribute placeholder_fill p (rewrite_fill p).
Proof.
  apply (sub_replacing fill_re fill_attribute);
    auto using fill_piece_sound, fill_piece_complete, fill_piece_nonempty.
Qed.

Lemma rewrite_fill_unique (p out : text) :
  replacing fill_attribute placeholder_fill p out -> out = rewrite_fill p.
Proof.
  apply (replacing_unique fill_re fill_attribute);
    auto using fill_piece_sound, fill_piece_complete, fill_piece_nonempty.
Qed.

Lemma fill_reading_unique (p : text) (found : list text) :
  reading fill_attribute p found -> found = findall fill_re p.
Proof.
  apply (reading_unique fill_re fill_attribute);
    auto using fill_piece_sound, fill_piece_complete, fill_piece_nonempty.
Qed.

End PieceFacts.

(** ** Lower case *)

Section LowerFacts.
Import Re Spec.
Variable unicode_lower : text -> nat -> char -> list char.

Lemma lower_from_ascii (s : text) (i : nat) (rest : text) :
  ascii_only rest ->
  lower_from unicode_lower s i rest = map ascii_lower_char rest.
Proof.
  revert i; induction rest as [|c rest IH]; intros i Hrest; [reflexivity|].
  apply List.Forall_cons_iff in Hrest as [Hc Hrest]. cbn [lower_from map].
  apply N.ltb_lt in Hc. rewrite Hc. cbn [app]. f_equal. now apply IH.
Qed.

(** On ASCII text [str.lower] does not consult the Unicode tables. *)
Lemma lower_ascii (s : text) :
  ascii_only s -> lower unicode_lower s = map ascii_lower_char s.
Proof. apply lower_from_ascii. Qed.

Lemma lower_from_app (s : text) (i : nat) (a b : text) :
  lower_from unicode_lower s i (a ++ b)
  = lower_from unicode_lower s i a
    ++ lower_from unicode_lower s (i + List.length a) b.
Proof.
  revert i; induction a as [|c a IH]; intros i; cbn [app lower_from List.length].
  - now rewrite Nat.add_0_r.
  - rewrite IH, <- app_assoc. do 3 f_equal. lia.
Qed.

(** A character beyond ASCII is replaced by what the tables give for it
    where it stands; the ASCII text around it is lower-cased as ever. *)
Lemma lower_beyond_ascii (pre : text) (c : char) (post : text) :
  ascii_only pre -> ascii_only post -> (128 <= c)%N ->
  lower unicode_lower (pre ++ c :: post)
  = map ascii_lower_char pre
    ++ unicode_lower (pre ++ c :: post) (List.length pre) c
    ++ map ascii_lower_char post.
Proof.
  intros Hpre Hpost Hc. unfold lower.
  rewrite lower_from_app, (lower_from_ascii _ _ pre Hpre). f_equal.
  cbn [lower_from Nat.add].
  apply N.ltb_ge in Hc. rewrite Hc. f_equal.
  now apply lower_from_ascii.
Qed.

Lemma ascii_lower_letter (x y : char) :
  (97 <= y <= 122)%N ->
  ascii_lower_char x = y <-> x = y \/ (x + 32)%N = y.
Proof.
  intros Hy. unfold ascii_lower_char.
  destruct ((65 <=? x) && (x <=? 90))%N eqn:E.
  - apply andb_true_iff in E as [E1 E2].
    apply N.leb_le in E1, E2. split; [auto|]. intros [-> | H]; [lia | exact H].
  - apply andb_false_iff in E. split; [auto|]. intros [H | H]; [exact H|].
    destruct E as [E | E]; apply N.leb_gt in E; lia.
Qed.

Lemma lower_in_any_case (pattern w : text) :
  Forall (fun y => (97 <= y <= 122)%N) pattern ->
  map ascii_lower_char w = pattern <-> in_any_case pattern w.
Proof.
  unfold in_any_case. revert w; induction pattern as [|y pattern IH];
    intros w Hp.
  - split.
    + intros H. apply map_eq_nil in H as ->. constructor.
    + intros H. inversion H. reflexivity.
  - apply List.Forall_cons_iff in Hp as [Hy Hp]. split.
    + destruct w as [|x w]; [discriminate|]. intros [= Hx Hw].
      constructor; [now apply (ascii_lower_letter x y Hy) | now apply IH].
    + intros H. inversion H as [|y' x pattern' w' Hx Hw]; subst.
      cbn [map]. f_equal; [now apply (ascii_lower_letter x y Hy) | now apply IH].
Qed.

Lemma occurs_map (f : char -> char) (w p : text) :
  occurs w (map f p) <-> exists w', map f w' = w /\ occurs w' p.
Proof.
  split.
  - intros (pre & post & H).
    apply map_eq_app in H as (pre' & rest & -> & <- & H).
    apply map_eq_app in H as (w' & post' & -> & <- & <-).
    exists w'. split; [reflexivity | now exists pre', post'].
  - intros (w' & <- & pre & post & ->).
    exists (map f pre), (map f post). now rewrite !map_app.
Qed.

(** On an ASCII element the test of line 72 for the name is a search for
    [black] in any mix of upper and lower case. *)
Lemma lower_black_ascii (p : text) :
  ascii_only p ->
  occurs (lit "black") (lower unicode_lower p)
  <-> exists w, in_any_case (lit "black") w /\ occurs w p.
Proof.
  intros Hp. rewrite (lower_ascii p Hp), occurs_map.
  assert (Hb : Forall (fun y => (97 <= y <= 122)%N) (lit "black")).
  { repeat constructor; vm_compute; discriminate. }
  split; intros (w & Hw & Hocc); exists w; split; try exact Hocc;
    now apply (lower_in_any_case _ _ Hb).
Qed.

End LowerFacts.

(** ** Extraction and the final document *)

Section ExtractionFacts.
Import Re Svg Spec Inputs.
Variable unicode_lower : text -> nat -> char -> list char.

Lemma mentions_black_iff (p : text) :
  mentions_black unicode_lower p = true <-> names_black unicode_lower p.
Proof.
  unfold mentions_black, names_black.
  now rewrite orb_true_iff, !contains_spec.
Qed.

Lemma not_mentions_white_iff (p : text) :
  not_mentions_white p = true <-> avoids_white p.
Proof.
  unfold not_mentions_white, avoids_white.
  rewrite andb_true_iff, !negb_true_iff, <- !contains_spec.
  split; intros [H1 H2]; split; try (now apply not_true_iff_false).
Qed.

Lemma filter_nil_none {A} (f : A -> bool) (l : list A) :
  List.filter f l = [] -> forall x, In x l -> f x = false.
Proof.
  intros E x Hx. destruct (f x) eqn:Hf; [|reflexivity].
  assert (H : In x (List.filter f l)) by (apply filter_In; auto).
  rewrite E in H. destruct H.
Qed.

(** Which elements are retained, in terms of substrings. *)
Lemma black_paths_in (content p : text) :
  In p (black_paths unicode_lower content) <->
  In p (paths content) /\
  ((exists q, In q (paths content) /\ names_black unicode_lower q)
   /\ names_black unicode_lower p
   \/ (forall q, In q (paths content) -> ~ names_black unicode_lower q)
      /\ avoids_white p).
Proof.
  unfold black_paths.
  destruct (List.filter (mentions_black unicode_lower) (paths content))
    as [|t l] eqn:E.
  - pose proof (filter_nil_none _ _ E) as Hnone.
    rewrite filter_In, not_mentions_white_iff. split.
    + intros [Hp Hw]. split; [exact Hp|]. right. split; [|exact Hw].
      intros q Hq Hb. apply mentions_black_iff in Hb.
      rewrite (Hnone q Hq) in Hb. discriminate Hb.
    + intros [Hp [[(q & Hq & Hb) _] | [_ Hw]]]; [|auto].
      apply mentions_black_iff in Hb. rewrite (Hnone q Hq) in Hb.
      discriminate Hb.
  - rewrite <- E, filter_In, mentions_black_iff.
    assert (Ht : In t (paths content) /\ mentions_black unicode_lower t = true).
    { apply filter_In. rewrite E. now left. }
    destruct Ht as [Ht Hb]. apply mentions_black_iff in Hb. split.
    + intros [Hp Hpb]. split; [exact Hp|]. left. split; [now exists t | exact Hpb].
    + intros [Hp [[_ Hpb] | [Hnone _]]]; [auto|].
      exfalso. exact (Hnone t Ht Hb).
Qed.

Lemma black_paths_nonempty (content : text) :
  black_paths unicode_lower content <> [] <->
  exists p, In p (paths content)
            /\ (names_black unicode_lower p \/ avoids_white p).
Proof.
  split.
  - destruct (black_paths unicode_lower content) as [|p l] eqn:E; [congruence|].
    intros _. exists p. destruct (proj1 (black_paths_in content p)) as [Hp Hc].
    + rewrite E. now left.
    + split; [exact Hp|]. tauto.
  - intros (p & Hp & Hc). unfold black_paths.
    destruct (List.filter (mentions_black unicode_lower) (paths content))
      as [|t l] eqn:E; [|discriminate].
    destruct Hc as [Hb | Hw].
    + apply mentions_black_iff in Hb.
      assert (H : In p (List.filter (mentions_black unicode_lower) (paths content)))
        by (apply filter_In; auto).
      rewrite E in H. destruct H.
    + apply not_mentions_white_iff in Hw. intros E'.
      assert (H : In p (List.filter not_mentions_white (paths content)))
        by (apply filter_In; auto).
      rewrite E' in H. destruct H.
Qed.

(** The shape elements of the final document are the retained elements,
    rewritten. *)
Lemma paths_monochrome_document (content : text) :
  paths (monochrome_document unicode_lower content)
  = map rewrite_fill (black_paths unicode_lower content).
Proof.
  apply paths_svg_content. intros p Hp.
  now apply (paths_sound content), (black_paths_sub unicode_lower).
Qed.

(** Unicode lower-cases the Kelvin sign to [k]: with such tables an element
    that spells [blac] and that sign names black, with tables that leave
    the sign alone it does not. *)
Lemma kelvin_sign_names_black :
  mentions_black kelvin_unicode (lit "<path id='blac" ++ [8490%N] ++ lit "'/>")
  = true
  /\ mentions_black no_unicode (lit "<path id='blac" ++ [8490%N] ++ lit "'/>")
     = false.
Proof. split; reflexivity. Qed.

(** On the elements of the first example the tables are not consulted. *)
Lemma red_named_black_any_tables :
  black_paths unicode_lower red_named_black
  = [qlit "<path d='M0 0' fill='#000000'/>";
     qlit "<path id='black' d='M1 1' fill='#ff0000'/>"].
Proof. vm_compute. reflexivity. Qed.

End ExtractionFacts.

Section ExtractionClaims.
Import Re Svg Spec Inputs.

(** The claim C2 as stated fails: the second element below is retained
    although its fill is red, because its id reads [black]. *)
Lemma fill_filter_fails :
  black_paths no_unicode red_named_black
  = [qlit "<path d='M0 0' fill='#000000'/>";
     qlit "<path id='black' d='M1 1' fill='#ff0000'/>"]
  /\ fill_values (qlit "<path id='black' d='M1 1' fill='#ff0000'/>")
     = [lit "#ff0000"]
  /\ spec_black_paths red_named_black
     = [qlit "<path d='M0 0' fill='#000000'/>"]
  /\ black_paths no_unicode red_named_black <> spec_black_paths red_named_black.
Proof. repeat split. vm_compute. discriminate. Qed.

(** C2 (amended).  For every vectorizer output text, the extraction reads
    the text from left to right for self-closing path elements, without
    overlap, and retains, in that order, exactly those whose text contains
    [#000] or whose lower-cased text contains [black]; if there is none, it
    retains exactly those whose text contains neither [#fff] nor [#FFF].
    The tests look at the whole element, not at its fill attribute; on an
    ASCII element the lower-case test finds [black] in any mix of upper and
    lower case, and a character beyond ASCII counts as what the Unicode
    tables of [str.lower] make of it. *)
Theorem retained_elements
        (unicode_lower : text -> nat -> char -> list char) (content : text) :
  (forall p,
      In p (black_paths unicode_lower content) <->
      In p (paths content) /\
      ((exists q, In q (paths content) /\ names_black unicode_lower q)
       /\ names_black unicode_lower p
       \/ (forall q, In q (paths content) -> ~ names_black unicode_lower q)
          /\ avoids_white p))
  /\ (forall p, In p (paths content) -> self_closing_path p /\ occurs p content)
  /\ (exists keep,
         black_paths unicode_lower content = List.filter keep (paths content))
  /\ shape_elements content (paths content)
  /\ (forall elements, shape_elements content elements -> elements = paths content)
  /\ (forall p,
         ascii_only p ->
         occurs (lit "black") (lower unicode_lower p)
         <-> exists w, in_any_case (lit "black") w /\ occurs w p)
  /\ (forall pre c post,
         ascii_only pre -> ascii_only post -> (128 <= c)%N ->
         lower unicode_lower (pre ++ c :: post)
         = map ascii_lower_char pre
           ++ unicode_lower (pre ++ c :: post) (List.length pre) c
           ++ map ascii_lower_char post).
Proof.
  split; [apply black_paths_in|].
  split; [apply paths_sound|].
  split; [apply black_paths_filter|].
  split; [apply paths_shape_elements|].
  split; [apply shape_elements_unique|].
  split; [apply lower_black_ascii | apply lower_beyond_ascii].
Qed.

(** The claim C3 as stated fails: an element whose attributes are quoted
    with apostrophes is retained and keeps its concrete fill colour. *)
Lemma concrete_fill_survives :
  paths (monochrome_document no_unicode apostrophe_fill)
  = [lit "<path d='M0 0' fill='#000000'/>"]
  /\ fill_values (lit "<path d='M0 0' fill='#000000'/>") = [lit "#000000"]
  /\ lit "#000000" <> lit "currentColor".
Proof. repeat split. vm_compute. discriminate. Qed.

(** C3 (amended).  For every vectorizer output text, the final monochrome
    document is the fixed container (fixed view box and pixel dimensions,
    default fill [currentColor]) around the retained elements, one per line,
    each rewritten; read from left to right its shape elements are exactly
    those rewritten elements.  Rewriting replaces the pieces of text of the
    form [fill=] followed by a value in double quotes, found from left to
    right without overlap wherever they stand in the element, by the
    placeholder, and keeps every other character; afterwards every such
    piece of every shape element is the placeholder. *)
Theorem final_document
        (unicode_lower : text -> nat -> char -> list char) (content : text) :
  monochrome_document unicode_lower content
  = svg_open
    ++ concat (map (fun p => rewrite_fill p ++ [newline])
                   (black_paths unicode_lower content))
    ++ svg_close
  /\ svg_open
     = qlit "<svg xmlns='http://www.w3.org/2000/svg' viewBox='0 0 1206 1206' width='24' height='24' fill='currentColor'>"
       ++ [newline]
  /\ svg_close = lit "</svg>"
  /\ paths (monochrome_document unicode_lower content)
     = map rewrite_fill (black_paths unicode_lower content)
  /\ (forall e,
         In e (paths (monochrome_document unicode_lower content)) ->
         self_closing_path e
         /\ forall a, In a (findall fill_re e) -> a = placeholder_fill)
  /\ (forall p,
         findall fill_re (rewrite_fill p)
         = map (fun _ => placeholder_fill) (findall fill_re p))
  /\ shape_elements (monochrome_document unicode_lower content)
                    (map rewrite_fill (black_paths unicode_lower content))
  /\ (forall elements,
         shape_elements (monochrome_document unicode_lower content) elements ->
         elements = map rewrite_fill (black_paths unicode_lower content))
  /\ (forall p,
         replacing fill_attribute placeholder_fill p (rewrite_fill p)
         /\ forall out,
              replacing fill_attribute placeholder_fill p out ->
              out = rewrite_fill p)
  /\ (forall e found a,
         In e (map rewrite_fill (black_paths unicode_lower content)) ->
         reading fill_attribute e found ->
         In a found ->
         a = placeholder_fill).
Proof.
  split; [apply svg_content_concat|].
  split; [reflexivity|]. split; [reflexivity|].
  split; [apply paths_monochrome_document|].
  split.
  { intros e He. rewrite paths_monochrome_document in He.
    apply in_map_iff in He as (p & <- & Hp). split.
    - now apply rewrite_fill_path, (paths_sound content),
        (black_paths_sub unicode_lower).
    - intros a Ha. rewrite findall_rewritten in Ha.
      now apply in_map_iff in Ha as (m & <- & _). }
  split; [apply findall_rewritten|].
  split.
  { rewrite <- paths_monochrome_document. apply paths_shape_elements. }
  split.
  { intros elements H. apply shape_elements_unique in H as ->.
    apply paths_monochrome_document. }
  split.
  { intros p. split; [apply rewrite_fill_replacing | apply rewrite_fill_unique]. }
  intros e found a He Hfound Ha.
  apply in_map_iff in He as (p & <- & _).
  apply fill_reading_unique in Hfound as ->.
  rewrite findall_rewritten in Ha.
  now apply in_map_iff in Ha as (m & <- & _).
Qed.

End ExtractionClaims.

(** ** Further properties of the extraction *)

Section ExtractionMore.
Import Re Svg Spec Inputs.

Lemma subst_rewritten (ts : list token) :
  flat_map (token_subst placeholder_fill)
    (map (fun t => match t with
                   | Hit _ => Hit placeholder_fill
                   | Gap c => Gap c
                   end) ts)
  = flat_map (token_subst placeholder_fill) ts.
Proof.
  induction ts as [|[c|m] ts IH]; simpl; [reflexivity | | ]; now rewrite IH.
Qed.

(** X3.  Rewriting the fill attributes is idempotent: a rewritten text is
    left as it is by a second rewriting. *)
Theorem rewrite_fill_idempotent (s : text) :
  rewrite_fill (rewrite_fill s) = rewrite_fill s.
Proof.
  rewrite (rewrite_fill_scan (rewrite_fill s)), scan_rewritten.
  rewrite subst_rewritten. reflexivity.
Qed.

(** X4.  A text in which the pattern of line 81 finds no fill attribute in
    double quotes is returned unchanged. *)
Theorem rewrite_fill_unmatched (s : text) :
  findall fill_re s = [] -> rewrite_fill s = s.
Proof.
  induction s as [|x s Hm IH|v rest Hv IH] using fill_scan_ind.
  - reflexivity.
  - unfold findall. rewrite scan_gap by (left; exact Hm).
    cbn [flat_map token_hits app].
    intros H. rewrite rewrite_fill_gap by exact Hm. f_equal. now apply IH.
  - unfold findall.
    rewrite scan_hit by (discriminate || now apply match_fill_complete).
    discriminate.
Qed.

Lemma rewrite_fill_unmatched_witness :
  rewrite_fill apostrophe_fill = apostrophe_fill.
Proof. apply (rewrite_fill_unmatched apostrophe_fill). reflexivity. Defined.

(** X5.  Line 71 finds the first element: when a self-closing path element
    follows text without [<], it is the first match, and the scan goes on
    after it. *)
Theorem paths_first_element (pre e post : text) :
  ~ In (chr "<") pre -> self_closing_path e ->
  paths (pre ++ e ++ post) = e :: paths post.
Proof.
  intros Hpre (body & -> & Hne & Hgt). unfold paths, findall.
  rewrite (scan_prefix_gaps path_re (chr "<") _ pre _ eq_refl Hpre), flat_map_app.
  replace (flat_map token_hits (map Gap pre)) with (@nil text)
    by (clear; induction pre; simpl; auto).
  rewrite scan_hit; [reflexivity | discriminate | now apply match_path_complete].
Qed.

Lemma paths_first_element_witness :
  paths (lit "  " ++ qlit "<path d='M0 0' fill='#000000'/>" ++ lit "</svg>")
  = [qlit "<path d='M0 0' fill='#000000'/>"].
Proof.
  apply (paths_first_element (lit "  ") (qlit "<path d='M0 0' fill='#000000'/>")
           (lit "</svg>")).
  - vm_compute. intuition discriminate.
  - exists (qlit " d='M0 0' fill='#000000'").
    split; [reflexivity|]. split; [discriminate|].
    vm_compute. intuition discriminate.
Defined.

Lemma occurs_app_l (needle a b post : text) :
  occurs needle (a ++ needle ++ b ++ post).
Proof. exists a, (b ++ post). reflexivity. Qed.

Lemma occurs_trans (a b c : text) : occurs a b -> occurs b c -> occurs a c.
Proof.
  intros (p1 & q1 & ->) (p2 & q2 & ->).
  exists (p2 ++ p1), (q1 ++ q2). now rewrite <- !app_assoc.
Qed.

(** X6.  Markup in which [<path] does not occur, or in which [/>] does
    not occur, has no element to extract: the final document is the
    container alone. *)
Theorem no_path_no_shape
        (unicode_lower : text -> nat -> char -> list char) (content : text) :
  ~ occurs path_open content \/ ~ occurs path_close content ->
  paths content = []
  /\ black_paths unicode_lower content = []
  /\ monochrome_document unicode_lower content = svg_open ++ svg_close.
Proof.
  intros Hno.
  assert (Hp : paths content = []).
  { destruct (paths content) as [|p l] eqn:E; [reflexivity|]. exfalso.
    destruct (paths_sound content p) as [(body & -> & _) Hocc];
      [rewrite E; now left|].
    destruct Hno as [Hno | Hno]; apply Hno;
      (eapply occurs_trans; [|exact Hocc]).
    - exists [], (body ++ path_close). reflexivity.
    - exists (path_open ++ body), []. now rewrite app_nil_r, <- app_assoc. }
  assert (Hb : black_paths unicode_lower content = []).
  { unfold black_paths. now rewrite Hp. }
  split; [exact Hp|]. split; [exact Hb|].
  unfold monochrome_document. now rewrite Hb.
Qed.

Lemma no_path_no_shape_witness :
  paths no_shapes = []
  /\ black_paths no_unicode no_shapes = []
  /\ monochrome_document no_unicode no_shapes = svg_open ++ svg_close.
Proof.
  apply (no_path_no_shape no_unicode no_shapes). left.
  rewrite <- contains_spec. vm_compute. discriminate.
Defined.

End ExtractionMore.

(** ** Further properties of the runs *)

Section PathFacts.
Import Script.

Lemma append_cons (c : ascii) (p n : string) :
  String c p +:+ n = String c (p +:+ n).
Proof. reflexivity. Qed.

Lemma length_append (p n : string) :
  String.length (p +:+ n) = (String.length p + String.length n)%nat.
Proof.
  induction p as [|c p IH]; [reflexivity|].
  rewrite append_cons. simpl. now rewrite IH.
Qed.

Lemma append_assoc (p q n : string) : (p +:+ q) +:+ n = p +:+ (q +:+ n).
Proof.
  induction p as [|c p IH]; [reflexivity|].
  rewrite !append_cons. now rewrite IH.
Qed.

(** Two paths that end in different names of one length differ. *)
Lemma suffix_inj (p q n m : string) :
  String.length n = String.length m -> p +:+ n = q +:+ m -> n = m.
Proof.
  revert q; induction p as [|c p IH]; intros [|d q] Hlen Heq.
  - exact Heq.
  - change ("" +:+ n) with n in Heq. subst n.
    rewrite length_append in Hlen. simpl in Hlen. lia.
  - change ("" +:+ m) with m in Heq. subst m.
    rewrite length_append in Hlen. simpl in Hlen. lia.
  - rewrite !append_cons in Heq. injection Heq as _ Heq. now apply (IH q).
Qed.

(** [os.path.join] puts the name after a prefix that depends on the
    directory alone. *)
Lemma os_path_join_prefix (a : string) :
  exists p, forall b, os_path_join a b = p +:+ b.
Proof.
  destruct a as [|c a]; [now exists ""|].
  unfold os_path_join.
  destruct (String.eqb _ "/").
  - now exists (String c a).
  - exists (String c a +:+ "/"). intros b. now rewrite append_assoc.
Qed.

(** The ten inequalities between the five paths of a run. *)
Lemma paths_pairwise (project_dir : string) :
  let i := input_path project_dir in
  let c := color_path project_dir in
  let m := mono_path project_dir in
  (i <> c /\ i <> m /\ i <> tmp_png /\ i <> tmp_svg)
  /\ (c <> m /\ c <> tmp_png /\ c <> tmp_svg)
  /\ (m <> tmp_png /\ m <> tmp_svg)
  /\ tmp_png <> tmp_svg.
Proof.
  destruct (os_path_join_prefix project_dir) as (p & Hp).
  unfold input_path, color_path, mono_path. rewrite !Hp. cbn zeta.
  assert (Hlen : forall n m, String.length n <> String.length m ->
                             p +:+ n <> p +:+ m).
  { intros n m Hnm H. apply Hnm. apply (f_equal String.length) in H.
    rewrite !length_append in H. lia. }
  assert (Hsuf : forall q n m, String.length n = String.length m -> n <> m ->
                               p +:+ n <> q +:+ m).
  { intros q n m Hnm Hne H. apply Hne. now apply (suffix_inj p q). }
  repeat split.
  - apply (Hsuf p); [reflexivity | discriminate].
  - apply Hlen. discriminate.
  - apply (Hsuf "/tmp/icon_silhou" "icon.png" "ette.png");
      [reflexivity | discriminate].
  - apply (Hsuf "/tmp/silhou" "icon.png" "ette.svg");
      [reflexivity | discriminate].
  - apply Hlen. discriminate.
  - apply (Hsuf "/tmp/icon_silhou" "icon.svg" "ette.png");
      [reflexivity | discriminate].
  - apply (Hsuf "/tmp/silhou" "icon.svg" "ette.svg");
      [reflexivity | discriminate].
  - apply (Hsuf "/tmp" "activitybar-icon.svg" "/icon_silhouette.png");
      [reflexivity | discriminate].
  - intros H. apply (f_equal String.length) in H. rewrite length_append in H.
    simpl in H. lia.
  - discriminate.
Qed.

(** X7.  Whatever the project directory, the source, the two output
    documents and the two temporary files are five different paths: the
    script never overwrites its source or one of its outputs with another
    file of its own. *)
Theorem paths_distinct (project_dir : string) :
  List.NoDup [input_path project_dir; color_path project_dir;
              mono_path project_dir; tmp_png; tmp_svg].
Proof.
  destruct (paths_pairwise project_dir)
    as ((H1 & H2 & H3 & H4) & (H5 & H6 & H7) & (H8 & H9) & H10).
  repeat constructor; simpl; intuition congruence.
Qed.

End PathFacts.

Section RunFacts.
Import Bitmap Re Svg Script Spec.
Context {bytes : Type}.
Variable os_error : access -> string -> option exn.
Variable print_error : string -> option exn.
Variable decode_image : bytes -> image + exn.
Variable encode_image : image -> bytes.
Variable decode_text : bytes -> text + exn.
Variable encode_text : text -> bytes.
Variable unicode_lower : text -> nat -> char -> list char.

(** The colour conversion when the source can be read, the vectorizer
    answers, the output can be written and the line printed. *)
Lemma color_run_exact (vtracer : config -> bytes -> bytes + exn)
      (input output : string) (w : @world bytes) (content svg : bytes) :
  os_error Reading input = None ->
  files w !! input = Some content ->
  vtracer color_config content = inl svg ->
  os_error Writing output = None ->
  print_error ("Created color SVG: " +:+ output) = None ->
  convert_to_color_svg os_error print_error vtracer input output w
  = Ok tt (World (<[output := svg]> (files w))
                 (stdout w ++ ["Created color SVG: " +:+ output])).
Proof.
  intros Hr Hfile Hvt Hw Hp.
  unfold convert_to_color_svg, bind, convert_image_to_svg_py.
  rewrite Hr, Hfile, Hvt, Hw. unfold print. now rewrite Hp.
Qed.

(** The monochrome conversion when the source opens and the temporary
    files can be used: what is left to go wrong is the vectorizer, the
    decoding of its answer, the opening of the output and the printing of
    the line. *)
Lemma monochrome_run_exact (vtracer : config -> bytes -> bytes + exn)
      (input output : string) (w : @world bytes) (content : bytes)
      (img bw : image) :
  os_error Reading input = None ->
  files w !! input = Some content ->
  decode_image content = inl img ->
  silhouette img = Some bw ->
  temporaries_usable os_error ->
  convert_to_monochrome_svg os_error print_error decode_image encode_image decode_text
    encode_text vtracer unicode_lower input output w
  = let w1 := World (<[tmp_png := encode_image bw]> (files w)) (stdout w) in
    match vtracer binary_config (encode_image bw) with
    | inr e => Raise e w1
    | inl svg =>
        let w2 := World (<[tmp_svg := svg]> (files w1)) (stdout w) in
        match decode_text svg with
        | inr e => Raise e w2
        | inl markup =>
            match os_error Writing output with
            | Some e => Raise e w2
            | None =>
                let w3 := World (<[output := encode_text
                                               (monochrome_document unicode_lower markup)]>
                                   (files w2))
                                (stdout w) in
                match print_error ("Created monochrome SVG: " +:+ output) with
                | Some e => Raise e w3
                | None =>
                    Ok tt (World (files w3)
                                 (stdout w ++ ["Created monochrome SVG: " +:+ output]))
                end
            end
        end
    end.
Proof.
  intros Hr Hfile Hdec Hbw (Hw1 & Hr1 & Hw2 & Hr2).
  unfold convert_to_monochrome_svg, bind, Image_open, bind, read_file.
  rewrite Hr, Hfile, Hdec. unfold ret. rewrite Hbw.
  unfold Image_save, write_file. rewrite Hw1.
  unfold convert_image_to_svg_py; cbn [files stdout].
  rewrite Hr1, lookup_insert_eq.
  destruct (vtracer binary_config (encode_image bw)) as [svg|e]; [|reflexivity].
  rewrite Hw2. unfold read_text, bind, read_file; cbn [files stdout].
  rewrite Hr2, lookup_insert_eq.
  destruct (decode_text svg) as [markup|e]; [|reflexivity].
  unfold ret, write_text, write_file; cbn [files stdout].
  destruct (os_error Writing output); [reflexivity|].
  unfold print; cbn [files stdout].
  destruct (print_error _); reflexivity.
Qed.

(** Once the source is open the monochrome conversion goes on from the
    image alone. *)
Lemma monochrome_opened (vtracer : config -> bytes -> bytes + exn)
      (input output : string) (w : @world bytes) (content : bytes)
      (img : image) :
  os_error Reading input = None ->
  files w !! input = Some content ->
  decode_image content = inl img ->
  convert_to_monochrome_svg os_error print_error decode_image encode_image decode_text
    encode_text vtracer unicode_lower input output w
  = bind (match silhouette img with
          | Some img_bw => ret img_bw
          | None => raise TypeError
          end)
         (fun img_bw =>
            bind (Image_save os_error encode_image img_bw tmp_png)
              (fun _ =>
                 bind (convert_image_to_svg_py os_error vtracer tmp_png tmp_svg
                         binary_config)
                   (fun _ =>
                      bind (read_text os_error decode_text tmp_svg)
                        (fun content =>
                           bind (write_text os_error encode_text output
                                   (monochrome_document unicode_lower content))
                             (fun _ =>
                                print print_error ("Created monochrome SVG: " +:+ output))))))
         w.
Proof.
  intros Hr Hfile Hdec.
  unfold convert_to_monochrome_svg, bind at 1, Image_open, bind at 1, read_file.
  now rewrite Hr, Hfile, Hdec.
Qed.

(** Writing, printing and reading keep two runs alike. *)
Lemma same_write (K W : list string) (path : string) (content : bytes)
      (a b : @world bytes) :
  agree K a b -> written W a ->
  same_outcome (path :: K) (path :: W)
    (write_file os_error path content a) (write_file os_error path content b).
Proof.
  intros Hag Hwr. unfold write_file.
  destruct (os_error Writing path); [reflexivity|].
  cbn. split; [reflexivity|]. split.
  - intros k Hk. cbn. rewrite !lookup_insert. case_decide; [reflexivity|].
    destruct Hk as [-> | Hk]; [congruence | now apply Hag].
  - intros k Hk. cbn. rewrite lookup_insert. case_decide; [eauto|].
    destruct Hk as [-> | Hk]; [congruence | now apply Hwr].
Qed.

Lemma same_print (K W : list string) (line : string) (a b : @world bytes) :
  agree K a b -> written W a ->
  same_outcome K W (print print_error line a) (print print_error line b).
Proof.
  intros Hag Hwr. unfold print.
  destruct (print_error line); cbn; auto.
Qed.

Lemma same_read_file (K W : list string) (path : string) (a b : @world bytes) :
  agree K a b -> written W a -> In path K ->
  same_outcome K W (read_file os_error path a) (read_file os_error path b).
Proof.
  intros Hag Hwr Hin. unfold read_file.
  destruct (os_error Reading path); [reflexivity|].
  rewrite <- (Hag path Hin).
  destruct (files a !! path); cbn; auto.
Qed.

Lemma same_weaken {A} (K K' W W' : list string) (r1 r2 : @result bytes A) :
  incl K' K -> incl W' W ->
  same_outcome K W r1 r2 -> same_outcome K' W' r1 r2.
Proof.
  intros HK HW. destruct r1, r2; cbn; auto.
  intros (-> & Hag & Hwr). split; [reflexivity|]. split.
  - intros k Hk. now apply Hag, HK.
  - intros k Hk. now apply Hwr, HW.
Qed.

Lemma same_bind {A B} (K K' W W' : list string)
      (c1 c2 : @M bytes A) (k1 k2 : A -> @M bytes B) (a b : @world bytes) :
  same_outcome K W (c1 a) (c2 b) ->
  (forall x a' b', agree K a' b' -> written W a' ->
                   same_outcome K' W' (k1 x a') (k2 x b')) ->
  same_outcome K' W' (bind c1 k1 a) (bind c2 k2 b).
Proof.
  intros Hc Hk. unfold bind. destruct (c1 a), (c2 b); cbn in Hc; try contradiction.
  - destruct Hc as (-> & Hag & Hwr). now apply Hk.
  - exact Hc.
Qed.

Lemma same_open (K W : list string) (path : string) (a b : @world bytes) :
  agree K a b -> written W a -> In path K ->
  same_outcome K W (Image_open os_error decode_image path a)
                   (Image_open os_error decode_image path b).
Proof.
  intros Hag Hwr Hin. unfold Image_open.
  apply (same_bind K K W W); [now apply same_read_file|].
  intros content a' b' Hag' Hwr'.
  destruct (decode_image content); cbn; auto.
Qed.

Lemma same_read (K W : list string) (path : string) (a b : @world bytes) :
  agree K a b -> written W a -> In path K ->
  same_outcome K W (read_text os_error decode_text path a)
                   (read_text os_error decode_text path b).
Proof.
  intros Hag Hwr Hin. unfold read_text.
  apply (same_bind K K W W); [now apply same_read_file|].
  intros content a' b' Hag' Hwr'.
  destruct (decode_text content); cbn; auto.
Qed.

Section TwoTracers.
Variables vt1 vt2 : config -> bytes -> bytes + exn.

Lemma same_trace (K W : list string) (input output : string) (cfg : config)
      (a b : @world bytes) :
  (forall content, vt1 cfg content = vt2 cfg content) ->
  agree K a b -> written W a -> In input K ->
  same_outcome (output :: K) (output :: W)
    (convert_image_to_svg_py os_error vt1 input output cfg a)
    (convert_image_to_svg_py os_error vt2 input output cfg b).
Proof.
  intros Hvt Hag Hwr Hin. unfold convert_image_to_svg_py.
  rewrite <- (Hag input Hin).
  destruct (os_error Reading input); [reflexivity|].
  destruct (files a !! input) as [content|]; [|reflexivity].
  rewrite <- Hvt. destruct (vt1 cfg content) as [svg|e]; [|reflexivity].
  destruct (os_error Writing output) eqn:Hw; [reflexivity|].
  pose proof (same_write K W output svg a b Hag Hwr) as H.
  unfold write_file in H. now rewrite Hw in H.
Qed.

Lemma same_color (K W : list string) (input output : string)
      (a b : @world bytes) :
  (forall content, vt1 color_config content = vt2 color_config content) ->
  agree K a b -> written W a -> In input K ->
  same_outcome (output :: K) (output :: W)
    (convert_to_color_svg os_error print_error vt1 input output a)
    (convert_to_color_svg os_error print_error vt2 input output b).
Proof.
  intros Hvt Hag Hwr Hin. unfold convert_to_color_svg.
  apply (same_bind (output :: K) (output :: K) (output :: W) (output :: W));
    [now apply same_trace|].
  intros [] a' b' Hag' Hwr'. now apply same_print.
Qed.

(** The monochrome conversion from the silhouette on: two sources with the
    same silhouette go the same way. *)
Lemma same_after_open (K W : list string) (img1 img2 : image) (output : string)
      (a b : @world bytes) :
  (forall content, vt1 binary_config content = vt2 binary_config content) ->
  silhouette img1 = silhouette img2 ->
  agree K a b -> written W a ->
  same_outcome (output :: K) (output :: W)
    (bind (match silhouette img1 with
           | Some img_bw => ret img_bw
           | None => raise TypeError
           end)
          (fun img_bw =>
             bind (Image_save os_error encode_image img_bw tmp_png)
               (fun _ =>
                  bind (convert_image_to_svg_py os_error vt1 tmp_png tmp_svg
                          binary_config)
                    (fun _ =>
                       bind (read_text os_error decode_text tmp_svg)
                         (fun content =>
                            bind (write_text os_error encode_text output
                                    (monochrome_document unicode_lower content))
                              (fun _ =>
                                 print print_error ("Created monochrome SVG: " +:+ output))))))
          a)
    (bind (match silhouette img2 with
           | Some img_bw => ret img_bw
           | None => raise TypeError
           end)
          (fun img_bw =>
             bind (Image_save os_error encode_image img_bw tmp_png)
               (fun _ =>
                  bind (convert_image_to_svg_py os_error vt2 tmp_png tmp_svg
                          binary_config)
                    (fun _ =>
                       bind (read_text os_error decode_text tmp_svg)
                         (fun content =>
                            bind (write_text os_error encode_text output
                                    (monochrome_document unicode_lower content))
                              (fun _ =>
                                 print print_error ("Created monochrome SVG: " +:+ output))))))
          b).
Proof.
  intros Hvt Hsil Hag Hwr. rewrite <- Hsil.
  set (K1 := tmp_png :: K). set (W1 := tmp_png :: W).
  set (K2 := tmp_svg :: K1). set (W2 := tmp_svg :: W1).
  set (K3 := output :: K2). set (W3 := output :: W2).
  assert (HK : incl (output :: K) K3).
  { intros k [<- | Hk]; [now left | now do 3 right]. }
  assert (HW : incl (output :: W) W3).
  { intros k [<- | Hk]; [now left | now do 3 right]. }
  apply (same_weaken K3 _ W3 _ _ _ HK HW).
  apply (same_bind K K3 W W3).
  { destruct (silhouette img1); cbn; auto. }
  intros img_bw a2 b2 Hag2 Hwr2.
  apply (same_bind K1 K3 W1 W3); [now apply same_write|].
  intros [] a3 b3 Hag3 Hwr3.
  apply (same_bind K2 K3 W2 W3);
    [apply same_trace; [exact Hvt | exact Hag3 | exact Hwr3 | now left]|].
  intros [] a4 b4 Hag4 Hwr4.
  apply (same_bind K2 K3 W2 W3);
    [apply same_read; [exact Hag4 | exact Hwr4 | now left]|].
  intros content a5 b5 Hag5 Hwr5.
  apply (same_bind K3 K3 W3 W3); [now apply same_write|].
  intros [] a6 b6 Hag6 Hwr6. now apply same_print.
Qed.

Lemma same_monochrome (K W : list string) (input output : string)
      (a b : @world bytes) :
  (forall content, vt1 binary_config content = vt2 binary_config content) ->
  agree K a b -> written W a -> In input K ->
  same_outcome (output :: K) (output :: W)
    (convert_to_monochrome_svg os_error print_error decode_image encode_image decode_text
       encode_text vt1 unicode_lower input output a)
    (convert_to_monochrome_svg os_error print_error decode_image encode_image decode_text
       encode_text vt2 unicode_lower input output b).
Proof.
  intros Hvt Hag Hwr Hin. unfold convert_to_monochrome_svg.
  apply (same_bind K (output :: K) W (output :: W)); [now apply same_open|].
  intros img a1 b1 Hag1 Hwr1. now apply same_after_open.
Qed.

Lemma same_main (project_dir : string) (a b : @world bytes) :
  (forall cfg content, vt1 cfg content = vt2 cfg content) ->
  files a !! input_path project_dir = files b !! input_path project_dir ->
  same_outcome
    [mono_path project_dir; color_path project_dir; input_path project_dir]
    [mono_path project_dir; color_path project_dir]
    (main os_error print_error decode_image encode_image decode_text encode_text vt1
          unicode_lower project_dir a)
    (main os_error print_error decode_image encode_image decode_text encode_text vt2
          unicode_lower project_dir b).
Proof.
  intros Hvt Hin. unfold main.
  set (input := input_path project_dir). set (color := color_path project_dir).
  set (mono := mono_path project_dir).
  assert (Hag : agree [input] a b) by (intros k [<- | []]; exact Hin).
  assert (Hwr : written [] a) by (intros k []).
  apply (same_bind [color; input] _ [color] _);
    [apply same_color; [apply Hvt | exact Hag | exact Hwr | now left]|].
  intros [] a1 b1 Hag1 Hwr1.
  apply (same_bind [mono; color; input] _ [mono; color] _);
    [apply same_monochrome; [apply Hvt | exact Hag1 | exact Hwr1 | now right; left]|].
  intros [] a2 b2 Hag2 Hwr2. now apply same_print.
Qed.

End TwoTracers.

End RunFacts.

(** ** Runs of the script *)

Section RunClaims.
Import Bitmap Re Svg Script Spec.
Context {bytes : Type}.
Variable os_error : access -> string -> option exn.
Variable print_error : string -> option exn.
Variable decode_image : bytes -> image + exn.
Variable encode_image : image -> bytes.
Variable decode_text : bytes -> text + exn.
Variable encode_text : text -> bytes.
Variable unicode_lower : text -> nat -> char -> list char.

(** C4 (amended).  For every run in which the source opens, the temporary
    files can be written and read, the vectorizer answers, its answer is
    read back and the extraction (including the
    fallback) yields no shape elements, the empty extraction raises
    nothing: the program goes on to write a monochrome document that
    consists of the container alone, with no shapes.  When the output file
    can be opened for writing that document is written, and the run
    completes normally once its line is printed; the only ways left to
    abort are the operating system's error for the output file and the
    error of standard output for the line. *)
Theorem empty_extraction_is_written
        (vtracer : config -> bytes -> bytes + exn)
        (input output : string) (w : @world bytes) (source : bytes)
        (img : image) (content : text) :
  os_error Reading input = None ->
  files w !! input = Some source ->
  decode_image source = inl img ->
  well_formed img ->
  temporaries_usable os_error ->
  (exists bw svg,
      silhouette img = Some bw
      /\ vtracer binary_config (encode_image bw) = inl svg
      /\ decode_text svg = inl content) ->
  black_paths unicode_lower content = [] ->
  paths (svg_open ++ svg_close) = []
  /\ shape_elements (svg_open ++ svg_close) []
  /\ match os_error Writing output with
     | None =>
         exists w',
           files w' !! output = Some (encode_text (svg_open ++ svg_close))
           /\ match print_error ("Created monochrome SVG: " +:+ output) with
              | None =>
                  convert_to_monochrome_svg os_error print_error decode_image
                    encode_image decode_text encode_text vtracer unicode_lower
                    input output w
                  = Ok tt w'
                  /\ stdout w' = stdout w ++ ["Created monochrome SVG: " +:+ output]
              | Some e =>
                  convert_to_monochrome_svg os_error print_error decode_image
                    encode_image decode_text encode_text vtracer unicode_lower
                    input output w
                  = Raise e w'
                  /\ stdout w' = stdout w
              end
     | Some e =>
         exists w',
           convert_to_monochrome_svg os_error print_error decode_image
             encode_image decode_text encode_text vtracer unicode_lower
             input output w
           = Raise e w'
           /\ stdout w' = stdout w
     end.
Proof.
  intros Hr Hfile Hdec Hwf Htmp (bw & svg & Hbw & Hvt & Htext) Hnone.
  assert (Hp : paths (svg_open ++ svg_close) = []) by reflexivity.
  split; [exact Hp|]. split; [rewrite <- Hp; apply paths_shape_elements|].
  rewrite (monochrome_run_exact os_error print_error decode_image encode_image
             decode_text encode_text unicode_lower vtracer input output w
             source img bw Hr Hfile Hdec Hbw Htmp).
  cbn zeta. rewrite Hvt, Htext.
  destruct (os_error Writing output) as [e|].
  - eexists; split; reflexivity.
  - unfold monochrome_document. rewrite Hnone.
    destruct (print_error _) as [e|];
      (eexists; split; [|split; reflexivity]);
      cbn [files]; apply lookup_insert_eq.
Qed.

(** C8 (amended).  For every source bitmap that opens, for which the
    temporary files can be written and read, on which the vectorizer
    answers, whose answer is read back, whose output can be written and
    whose line can be printed, the run completes and the shape elements of the final monochrome document are
    exactly the retained elements of the vectorizer's output, rewritten.
    The document contains at least one shape element exactly when one of
    the self-closing path elements that a left-to-right reading without
    overlap finds in that output names black or avoids white.  A foreground
    pixel in the source does not by itself guarantee one. *)
Theorem shapes_follow_vectorizer
        (vtracer : config -> bytes -> bytes + exn)
        (input output : string) (w : @world bytes) (source : bytes)
        (img : image) (content : text) :
  os_error Reading input = None ->
  files w !! input = Some source ->
  decode_image source = inl img ->
  well_formed img ->
  temporaries_usable os_error ->
  (exists bw svg,
      silhouette img = Some bw
      /\ vtracer binary_config (encode_image bw) = inl svg
      /\ decode_text svg = inl content) ->
  os_error Writing output = None ->
  print_error ("Created monochrome SVG: " +:+ output) = None ->
  exists w' doc,
    convert_to_monochrome_svg os_error print_error decode_image encode_image decode_text
      encode_text vtracer unicode_lower input output w
    = Ok tt w'
    /\ files w' !! output = Some (encode_text doc)
    /\ paths doc = map rewrite_fill (black_paths unicode_lower content)
    /\ (paths doc <> [] <->
        exists p, In p (paths content)
                  /\ (names_black unicode_lower p \/ avoids_white p))
    /\ shape_elements doc (map rewrite_fill (black_paths unicode_lower content))
    /\ (forall shapes,
           shape_elements doc shapes ->
           shapes = map rewrite_fill (black_paths unicode_lower content))
    /\ (forall shapes,
           shape_elements doc shapes ->
           shapes <> [] <->
           exists found p,
             shape_elements content found /\ In p found
             /\ (names_black unicode_lower p \/ avoids_white p)).
Proof.
  intros Hr Hfile Hdec Hwf Htmp (bw & svg & Hbw & Hvt & Htext) Hw Hline.
  exists (World (<[output := encode_text (monochrome_document unicode_lower content)]>
                   (<[tmp_svg := svg]>
                      (<[tmp_png := encode_image bw]> (files w))))
                (stdout w ++ ["Created monochrome SVG: " +:+ output])),
         (monochrome_document unicode_lower content).
  pose proof (paths_monochrome_document unicode_lower content) as Hpaths.
  assert (Hne : paths (monochrome_document unicode_lower content) <> [] <->
                exists p, In p (paths content)
                          /\ (names_black unicode_lower p \/ avoids_white p)).
  { rewrite Hpaths, <- black_paths_nonempty.
    destruct (black_paths unicode_lower content); cbn; split; congruence. }
  split.
  { rewrite (monochrome_run_exact os_error print_error decode_image encode_image decode_text
               encode_text unicode_lower vtracer input output w source img bw
               Hr Hfile Hdec Hbw Htmp).
    cbn zeta. now rewrite Hvt, Htext, Hw, Hline. }
  split; [cbn [files]; apply lookup_insert_eq|].
  split; [exact Hpaths|]. split; [exact Hne|].
  split; [rewrite <- Hpaths; apply paths_shape_elements|].
  split.
  { intros shapes Hshapes. apply shape_elements_unique in Hshapes as ->.
    exact Hpaths. }
  intros shapes Hshapes. apply shape_elements_unique in Hshapes as ->.
  rewrite Hne. split.
  - intros (p & Hp & Hc). exists (paths content), p.
    split; [apply paths_shape_elements | auto].
  - intros (found & p & Hfound & Hp & Hc).
    apply shape_elements_unique in Hfound as ->. eauto.
Qed.

(** C9.  Assuming the external vectorizer is a deterministic function of
    its input file and parameters, two runs of the full process on the same
    unchanged source bitmap, in one environment, end alike: either both
    complete, and then the colour documents they wrote are identical and so
    are the monochrome documents, or both abort with the same exception.
    Whatever else the file system held before either run, stale temporary
    files included, plays no part. *)
Theorem rerun_deterministic
        (behaviour : config -> bytes -> bytes + exn -> Prop)
        (vt1 vt2 : config -> bytes -> bytes + exn)
        (project_dir : string) (w1 w2 : @world bytes) :
  (forall cfg content o1 o2,
      behaviour cfg content o1 -> behaviour cfg content o2 -> o1 = o2) ->
  (forall cfg content, behaviour cfg content (vt1 cfg content)) ->
  (forall cfg content, behaviour cfg content (vt2 cfg content)) ->
  files w1 !! input_path project_dir = files w2 !! input_path project_dir ->
  match main os_error print_error decode_image encode_image decode_text encode_text vt1
             unicode_lower project_dir w1,
        main os_error print_error decode_image encode_image decode_text encode_text vt2
             unicode_lower project_dir w2 with
  | Ok _ a, Ok _ b =>
      files a !! color_path project_dir = files b !! color_path project_dir
      /\ files a !! mono_path project_dir = files b !! mono_path project_dir
      /\ is_Some (files a !! color_path project_dir)
      /\ is_Some (files a !! mono_path project_dir)
  | Raise e1 _, Raise e2 _ => e1 = e2
  | _, _ => False
  end.
Proof.
  intros Hdet H1 H2 Hin.
  assert (Hsame : forall cfg content, vt1 cfg content = vt2 cfg content)
    by (intros cfg content; eapply Hdet; [apply H1 | apply H2]).
  pose proof (same_main os_error print_error decode_image encode_image decode_text
                encode_text unicode_lower vt1 vt2 project_dir w1 w2 Hsame Hin)
    as H.
  destruct (main _ _ _ _ _ _ vt1 _ project_dir w1) as [[] a|e1 a],
           (main _ _ _ _ _ _ vt2 _ project_dir w2) as [[] b|e2 b];
    cbn in H; try contradiction; [|exact H].
  destruct H as (_ & Hag & Hwr).
  repeat split.
  - apply Hag. now right; left.
  - apply Hag. now left.
  - apply Hwr. now right; left.
  - apply Hwr. now left.
Qed.

(** X8.  A run whose source opens, whose vectorizer answers in both modes
    with an answer that reads back, whose four files can be written and
    whose three lines can be printed completes: the colour document is the vectorizer's colour answer for
    the source, unmodified; the monochrome document is built from its
    binary answer for the silhouette; and three lines are printed, one after
    each conversion and a last one at the end. *)
Theorem main_success
        (vtracer : config -> bytes -> bytes + exn)
        (project_dir : string) (w : @world bytes) (source : bytes)
        (img bw : image) (color_doc svg : bytes) (content : text) :
  os_error Reading (input_path project_dir) = None ->
  files w !! input_path project_dir = Some source ->
  decode_image source = inl img ->
  silhouette img = Some bw ->
  vtracer color_config source = inl color_doc ->
  os_error Writing (color_path project_dir) = None ->
  temporaries_usable os_error ->
  vtracer binary_config (encode_image bw) = inl svg ->
  decode_text svg = inl content ->
  os_error Writing (mono_path project_dir) = None ->
  print_error ("Created color SVG: " +:+ color_path project_dir) = None ->
  print_error ("Created monochrome SVG: " +:+ mono_path project_dir) = None ->
  print_error "Done!" = None ->
  exists w',
    main os_error print_error decode_image encode_image decode_text encode_text vtracer
         unicode_lower project_dir w
    = Ok tt w'
    /\ files w' !! color_path project_dir = Some color_doc
    /\ files w' !! mono_path project_dir
       = Some (encode_text (monochrome_document unicode_lower content))
    /\ stdout w'
       = stdout w
         ++ ["Created color SVG: " +:+ color_path project_dir;
             "Created monochrome SVG: " +:+ mono_path project_dir;
             "Done!"].
Proof.
  intros Hr Hfile Hdec Hbw Hc Hwc Htmp Hb Htext Hwm Hp1 Hp2 Hp3.
  destruct (paths_pairwise project_dir)
    as ((H1 & H2 & H3 & H4) & (H5 & H6 & H7) & (H8 & H9) & H10).
  unfold main, bind at 1.
  rewrite (color_run_exact os_error print_error vtracer _ _ w source color_doc
             Hr Hfile Hc Hwc Hp1).
  unfold bind.
  rewrite (monochrome_run_exact os_error print_error decode_image encode_image decode_text
             encode_text unicode_lower vtracer _ _ _ source img bw);
    cbn [files stdout];
    [|exact Hr | now rewrite lookup_insert_ne by congruence
     | exact Hdec | exact Hbw | exact Htmp].
  cbn zeta. rewrite Hb, Htext, Hwm, Hp2. unfold print; cbn [files stdout].
  rewrite Hp3.
  eexists; split; [reflexivity|]. cbn [files stdout].
  split; [|split].
  - rewrite !lookup_insert_ne by congruence. apply lookup_insert_eq.
  - apply lookup_insert_eq.
  - now rewrite <- !app_assoc.
Qed.

(** X9.  Such a run writes four files and no other: the source bitmap and
    every file that is not one of the two documents or the two temporary
    files are as before; the temporary files are not removed, and hold the
    encoded silhouette and the vectorizer's binary answer. *)
Theorem main_frame
        (vtracer : config -> bytes -> bytes + exn)
        (project_dir : string) (w : @world bytes) (source : bytes)
        (img bw : image) (color_doc svg : bytes) (content : text) :
  os_error Reading (input_path project_dir) = None ->
  files w !! input_path project_dir = Some source ->
  decode_image source = inl img ->
  silhouette img = Some bw ->
  vtracer color_config source = inl color_doc ->
  os_error Writing (color_path project_dir) = None ->
  temporaries_usable os_error ->
  vtracer binary_config (encode_image bw) = inl svg ->
  decode_text svg = inl content ->
  os_error Writing (mono_path project_dir) = None ->
  print_error ("Created color SVG: " +:+ color_path project_dir) = None ->
  print_error ("Created monochrome SVG: " +:+ mono_path project_dir) = None ->
  print_error "Done!" = None ->
  exists w',
    main os_error print_error decode_image encode_image decode_text encode_text vtracer
         unicode_lower project_dir w
    = Ok tt w'
    /\ files w' !! input_path project_dir = Some source
    /\ files w' !! tmp_png = Some (encode_image bw)
    /\ files w' !! tmp_svg = Some svg
    /\ forall p,
         ~ In p [color_path project_dir; mono_path project_dir; tmp_png; tmp_svg] ->
         files w' !! p = files w !! p.
Proof.
  intros Hr Hfile Hdec Hbw Hc Hwc Htmp Hb Htext Hwm Hp1 Hp2 Hp3.
  destruct (paths_pairwise project_dir)
    as ((H1 & H2 & H3 & H4) & (H5 & H6 & H7) & (H8 & H9) & H10).
  unfold main, bind at 1.
  rewrite (color_run_exact os_error print_error vtracer _ _ w source color_doc
             Hr Hfile Hc Hwc Hp1).
  unfold bind.
  rewrite (monochrome_run_exact os_error print_error decode_image encode_image decode_text
             encode_text unicode_lower vtracer _ _ _ source img bw);
    cbn [files stdout];
    [|exact Hr | now rewrite lookup_insert_ne by congruence
     | exact Hdec | exact Hbw | exact Htmp].
  cbn zeta. rewrite Hb, Htext, Hwm, Hp2. unfold print; cbn [files stdout].
  rewrite Hp3.
  eexists; split; [reflexivity|]. cbn [files stdout].
  split; [|split; [|split]].
  - now rewrite !lookup_insert_ne by congruence.
  - rewrite !lookup_insert_ne by congruence. apply lookup_insert_eq.
  - rewrite lookup_insert_ne by congruence. apply lookup_insert_eq.
  - intros p Hp. simpl in Hp.
    rewrite !lookup_insert_ne by (intros <-; apply Hp; auto). reflexivity.
Qed.

(** X10.  When the vectorizer answers in colour mode and fails in binary
    mode, the run aborts partway with the vectorizer's exception: the
    colour document is written and its line printed, the silhouette is left
    in its temporary file, the monochrome document is not written and
    neither of the last two lines is printed. *)
Theorem main_partial_failure
        (vtracer : config -> bytes -> bytes + exn)
        (project_dir : string) (w : @world bytes) (source : bytes)
        (img bw : image) (color_doc : bytes) (e : exn) :
  os_error Reading (input_path project_dir) = None ->
  files w !! input_path project_dir = Some source ->
  decode_image source = inl img ->
  silhouette img = Some bw ->
  vtracer color_config source = inl color_doc ->
  os_error Writing (color_path project_dir) = None ->
  temporaries_usable os_error ->
  vtracer binary_config (encode_image bw) = inr e ->
  print_error ("Created color SVG: " +:+ color_path project_dir) = None ->
  exists w',
    main os_error print_error decode_image encode_image decode_text encode_text vtracer
         unicode_lower project_dir w
    = Raise e w'
    /\ files w' !! color_path project_dir = Some color_doc
    /\ files w' !! mono_path project_dir = files w !! mono_path project_dir
    /\ files w' !! tmp_png = Some (encode_image bw)
    /\ stdout w'
       = stdout w ++ ["Created color SVG: " +:+ color_path project_dir].
Proof.
  intros Hr Hfile Hdec Hbw Hc Hwc Htmp Hb Hp1.
  destruct (paths_pairwise project_dir)
    as ((H1 & H2 & H3 & H4) & (H5 & H6 & H7) & (H8 & H9) & H10).
  unfold main, bind at 1.
  rewrite (color_run_exact os_error print_error vtracer _ _ w source color_doc
             Hr Hfile Hc Hwc Hp1).
  unfold bind.
  rewrite (monochrome_run_exact os_error print_error decode_image encode_image decode_text
             encode_text unicode_lower vtracer _ _ _ source img bw);
    cbn [files stdout];
    [|exact Hr | now rewrite lookup_insert_ne by congruence
     | exact Hdec | exact Hbw | exact Htmp].
  cbn zeta. rewrite Hb.
  eexists; split; [reflexivity|]. cbn [files stdout].
  split; [|split; [|split]].
  - rewrite lookup_insert_ne by congruence. apply lookup_insert_eq.
  - now rewrite !lookup_insert_ne by congruence.
  - apply lookup_insert_eq.
  - reflexivity.
Qed.

(** X11.  When the source cannot be read, is missing, or the vectorizer
    fails on it in colour mode, the run aborts in the first conversion:
    nothing is written, nothing is printed, and the monochrome conversion is
    not started. *)
Theorem main_aborts_first
        (vtracer : config -> bytes -> bytes + exn)
        (project_dir : string) (w : @world bytes) :
  (os_error Reading (input_path project_dir) = None ->
   forall source, files w !! input_path project_dir = Some source ->
                  exists e, vtracer color_config source = inr e) ->
  exists e,
    main os_error print_error decode_image encode_image decode_text encode_text vtracer
         unicode_lower project_dir w
    = Raise e w.
Proof.
  intros Hno. unfold main, bind, convert_to_color_svg, bind,
    convert_image_to_svg_py.
  destruct (os_error Reading (input_path project_dir)); [eauto|].
  destruct (files w !! input_path project_dir) as [source|] eqn:E; [|eauto].
  destruct (Hno eq_refl source eq_refl) as (e & ->). eauto.
Qed.

(** X12.  The monochrome conversion on its own: when its source cannot be
    read, is missing, or holds bytes that PIL does not decode, it raises
    before anything is written or printed.  The exception is the operating
    system's, [FileNotFoundError] for a path that holds nothing, or the one
    PIL raises, whichever it is. *)
Theorem monochrome_open_failure
        (vtracer : config -> bytes -> bytes + exn)
        (input output : string) (w : @world bytes) :
  (os_error Reading input = None ->
   forall source, files w !! input = Some source ->
                  exists e, decode_image source = inr e) ->
  exists e,
    convert_to_monochrome_svg os_error print_error decode_image encode_image decode_text
      encode_text vtracer unicode_lower input output w
    = Raise e w
    /\ (os_error Reading input = Some e
        \/ (os_error Reading input = None /\ files w !! input = None
            /\ e = FileNotFoundError input)
        \/ (os_error Reading input = None
            /\ exists source, files w !! input = Some source
                              /\ decode_image source = inr e)).
Proof.
  intros Hno. unfold convert_to_monochrome_svg, bind, Image_open, bind, read_file.
  destruct (os_error Reading input) as [e|] eqn:Hr.
  - exists e. auto.
  - destruct (files w !! input) as [source|] eqn:E.
    + destruct (Hno eq_refl source eq_refl) as (e & He). rewrite He.
      exists e. split; [reflexivity|]. right; right. eauto.
    + eexists. split; [reflexivity|]. right; left. auto.
Qed.

(** X13.  The monochrome document does not depend on the colours of the
    source, nor on what the vectorizer does in colour mode: two sources with
    the same silhouette, traced by vectorizers that agree in binary mode,
    end alike, and when they complete the monochrome documents are the
    same. *)
Theorem monochrome_colour_blind
        (vt1 vt2 : config -> bytes -> bytes + exn)
        (input1 input2 output : string) (w1 w2 : @world bytes)
        (source1 source2 : bytes) (img1 img2 bw : image) :
  os_error Reading input1 = None ->
  files w1 !! input1 = Some source1 -> decode_image source1 = inl img1 ->
  os_error Reading input2 = None ->
  files w2 !! input2 = Some source2 -> decode_image source2 = inl img2 ->
  silhouette img1 = Some bw -> silhouette img2 = Some bw ->
  (forall x, vt1 binary_config x = vt2 binary_config x) ->
  match convert_to_monochrome_svg os_error print_error decode_image encode_image
          decode_text encode_text vt1 unicode_lower input1 output w1,
        convert_to_monochrome_svg os_error print_error decode_image encode_image
          decode_text encode_text vt2 unicode_lower input2 output w2 with
  | Ok _ a, Ok _ b =>
      files a !! output = files b !! output /\ is_Some (files a !! output)
  | Raise e1 _, Raise e2 _ => e1 = e2
  | _, _ => False
  end.
Proof.
  intros Hr1 Hf1 Hd1 Hr2 Hf2 Hd2 Hb1 Hb2 Hvt.
  assert (Hsil : silhouette img1 = silhouette img2) by congruence.
  pose proof (same_after_open os_error print_error encode_image decode_text encode_text
                unicode_lower vt1 vt2 [] [] img1 img2 output w1 w2 Hvt Hsil)
    as H.
  assert (Hag : agree [] w1 w2) by (intros k []).
  assert (Hwr : written [] w1) by (intros k []).
  specialize (H Hag Hwr).
  rewrite (monochrome_opened os_error print_error decode_image encode_image decode_text
             encode_text unicode_lower vt1 _ _ _ _ _ Hr1 Hf1 Hd1).
  rewrite (monochrome_opened os_error print_error decode_image encode_image decode_text
             encode_text unicode_lower vt2 _ _ _ _ _ Hr2 Hf2 Hd2).
  unfold same_outcome in H.
  match goal with
  | |- match ?r1 with _ => _ end => destruct r1 as [[] a|e1 a]
  end;
  match goal with
  | |- match ?r2 with _ => _ end => destruct r2 as [[] b|e2 b]
  end; try contradiction; [|exact H].
  destruct H as (_ & Hag' & Hwr').
  split; [apply Hag' | apply Hwr']; now left.
Qed.

End RunClaims.

Section RunWitnesses.
Import Bitmap Re Svg Script Spec Inputs.

(** The claim C4 as stated fails: with a vectorizer that finds nothing to
    trace, the extraction is empty, yet the conversion completes and writes
    a document that holds the container alone. *)
Lemma empty_extraction_completes :
  black_paths no_unicode no_shapes = []
  /\ exists w',
       run_monochrome no_os_error blank_tracer
         "/repo/icon.png" "/repo/activitybar-icon.svg" (start one_black_pixel)
       = Ok tt w'
       /\ files w' !! "/repo/activitybar-icon.svg"%string
          = Some (RawText (svg_open ++ svg_close)).
Proof.
  split; [reflexivity|]. eexists; split; [reflexivity|]. reflexivity.
Qed.

Lemma empty_extraction_is_written_witness :
  (paths (svg_open ++ svg_close) = []
   /\ shape_elements (svg_open ++ svg_close) []
   /\ exists w',
        files w' !! "/repo/activitybar-icon.svg"%string
        = Some (raw_encode_text (svg_open ++ svg_close))
        /\ run_monochrome no_os_error blank_tracer
             "/repo/icon.png" "/repo/activitybar-icon.svg" (start one_black_pixel)
           = Ok tt w'
        /\ stdout w'
           = stdout (start one_black_pixel)
             ++ ["Created monochrome SVG: /repo/activitybar-icon.svg"%string])
  /\ (paths (svg_open ++ svg_close) = []
      /\ shape_elements (svg_open ++ svg_close) []
      /\ exists w',
           run_monochrome output_denied blank_tracer
             "/repo/icon.png" "/repo/activitybar-icon.svg" (start one_black_pixel)
           = Raise (LibraryError "PermissionError") w'
           /\ stdout w' = stdout (start one_black_pixel))
  /\ (paths (svg_open ++ svg_close) = []
      /\ shape_elements (svg_open ++ svg_close) []
      /\ exists w',
           files w' !! "/repo/activitybar-icon.svg"%string
           = Some (raw_encode_text (svg_open ++ svg_close))
           /\ convert_to_monochrome_svg no_os_error closed_stdout
                raw_decode_image raw_encode_image raw_decode_text
                raw_encode_text blank_tracer no_unicode
                "/repo/icon.png" "/repo/activitybar-icon.svg"
                (start one_black_pixel)
              = Raise (LibraryError "BrokenPipeError") w'
           /\ stdout w' = stdout (start one_black_pixel)).
Proof.
  split; [|split].
  - apply (empty_extraction_is_written no_os_error no_print_error
             raw_decode_image raw_encode_image raw_decode_text raw_encode_text
             no_unicode blank_tracer "/repo/icon.png"
             "/repo/activitybar-icon.svg" (start one_black_pixel)
             (RawImage one_black_pixel) one_black_pixel no_shapes);
      try reflexivity.
    + repeat split.
    + do 2 eexists. repeat split.
  - apply (empty_extraction_is_written output_denied no_print_error
             raw_decode_image raw_encode_image raw_decode_text raw_encode_text
             no_unicode blank_tracer "/repo/icon.png"
             "/repo/activitybar-icon.svg" (start one_black_pixel)
             (RawImage one_black_pixel) one_black_pixel no_shapes);
      try reflexivity.
    + repeat split.
    + do 2 eexists. repeat split.
  - apply (empty_extraction_is_written no_os_error closed_stdout
             raw_decode_image raw_encode_image raw_decode_text raw_encode_text
             no_unicode blank_tracer "/repo/icon.png"
             "/repo/activitybar-icon.svg" (start one_black_pixel)
             (RawImage one_black_pixel) one_black_pixel no_shapes);
      try reflexivity.
    + repeat split.
    + do 2 eexists. repeat split.
Defined.

(** The claim C8 as stated fails once the vectorizer is taken as the black
    box it is: the source below has a foreground pixel, the vectorizer
    returns a document without shapes, and so does the script. *)
Lemma foreground_without_shape :
  (exists p, In p (getdata two_by_two) /\ foreground p)
  /\ exists w' doc,
       run_monochrome no_os_error blank_tracer
         "/repo/icon.png" "/repo/activitybar-icon.svg" (start two_by_two)
       = Ok tt w'
       /\ files w' !! "/repo/activitybar-icon.svg"%string = Some (RawText doc)
       /\ paths doc = []
       /\ shape_elements doc [].
Proof.
  split.
  - exists (0, 0, 0, 255). split; [now left|]. unfold foreground. lia.
  - eexists. exists (svg_open ++ svg_close).
    split; [reflexivity|]. split; [reflexivity|]. split; [reflexivity|].
    exact (paths_shape_elements (svg_open ++ svg_close)).
Qed.

Lemma shapes_follow_vectorizer_witness :
  exists w' doc,
    run_monochrome no_os_error one_shape_tracer
      "/repo/icon.png" "/repo/activitybar-icon.svg" (start two_by_two)
    = Ok tt w'
    /\ files w' !! "/repo/activitybar-icon.svg"%string
       = Some (raw_encode_text doc)
    /\ paths doc = map rewrite_fill (black_paths no_unicode one_black_shape)
    /\ (paths doc <> [] <->
        exists p, In p (paths one_black_shape)
                  /\ (names_black no_unicode p \/ avoids_white p))
    /\ shape_elements doc (map rewrite_fill (black_paths no_unicode one_black_shape))
    /\ (forall shapes,
           shape_elements doc shapes ->
           shapes = map rewrite_fill (black_paths no_unicode one_black_shape))
    /\ (forall shapes,
           shape_elements doc shapes ->
           shapes <> [] <->
           exists found p,
             shape_elements one_black_shape found /\ In p found
             /\ (names_black no_unicode p \/ avoids_white p)).
Proof.
  apply (shapes_follow_vectorizer no_os_error no_print_error raw_decode_image
           raw_encode_image raw_decode_text raw_encode_text no_unicode
           one_shape_tracer "/repo/icon.png" "/repo/activitybar-icon.svg"
           (start two_by_two) (RawImage two_by_two) two_by_two);
    try reflexivity.
  - repeat split.
  - do 2 eexists. repeat split.
Defined.

Lemma rerun_deterministic_witness :
  match run_main no_os_error one_shape_tracer "/repo" (start two_by_two),
        run_main no_os_error one_shape_tracer "/repo"
          (World (<[tmp_svg := RawText no_shapes]> (files (start two_by_two)))
                 ["Done!"%string]) with
  | Ok _ a, Ok _ b =>
      files a !! color_path "/repo" = files b !! color_path "/repo"
      /\ files a !! mono_path "/repo" = files b !! mono_path "/repo"
      /\ is_Some (files a !! color_path "/repo")
      /\ is_Some (files a !! mono_path "/repo")
  | Raise e1 _, Raise e2 _ => e1 = e2
  | _, _ => False
  end.
Proof.
  apply (rerun_deterministic no_os_error no_print_error raw_decode_image raw_encode_image
           raw_decode_text raw_encode_text no_unicode
           (fun cfg content o => o = one_shape_tracer cfg content)
           one_shape_tracer one_shape_tracer "/repo").
  - intros cfg content o1 o2 -> ->. reflexivity.
  - reflexivity.
  - reflexivity.
  - reflexivity.
Defined.

Lemma main_success_witness :
  exists w',
    run_main no_os_error one_shape_tracer "/repo" (start two_by_two) = Ok tt w'
    /\ files w' !! color_path "/repo" = Some (RawText one_red_shape)
    /\ files w' !! mono_path "/repo"
       = Some (raw_encode_text (monochrome_document no_unicode one_black_shape))
    /\ stdout w'
       = stdout (start two_by_two)
         ++ ["Created color SVG: " +:+ color_path "/repo";
             "Created monochrome SVG: " +:+ mono_path "/repo";
             "Done!"].
Proof.
  apply (main_success no_os_error no_print_error raw_decode_image raw_encode_image
           raw_decode_text raw_encode_text no_unicode one_shape_tracer "/repo"
           (start two_by_two) (RawImage two_by_two) two_by_two
           (Image 2 2 [black; white; white; white])
           (RawText one_red_shape) (RawText one_black_shape));
    try reflexivity.
  repeat split.
Defined.

Lemma main_frame_witness :
  exists w',
    run_main no_os_error one_shape_tracer "/repo" (start_with_other two_by_two)
    = Ok tt w'
    /\ files w' !! input_path "/repo" = Some (RawImage two_by_two)
    /\ files w' !! tmp_png
       = Some (raw_encode_image (Image 2 2 [black; white; white; white]))
    /\ files w' !! tmp_svg = Some (RawText one_black_shape)
    /\ forall p,
         ~ In p [color_path "/repo"; mono_path "/repo"; tmp_png; tmp_svg] ->
         files w' !! p = files (start_with_other two_by_two) !! p.
Proof.
  apply (main_frame no_os_error no_print_error raw_decode_image raw_encode_image
           raw_decode_text raw_encode_text no_unicode one_shape_tracer "/repo"
           (start_with_other two_by_two) (RawImage two_by_two) two_by_two
           (Image 2 2 [black; white; white; white])
           (RawText one_red_shape) (RawText one_black_shape) one_black_shape);
    try reflexivity.
  repeat split.
Defined.

Lemma main_partial_failure_witness :
  exists w',
    run_main no_os_error color_only_tracer "/repo" (start two_by_two)
    = Raise (LibraryError "Exception") w'
    /\ files w' !! color_path "/repo" = Some (RawText one_red_shape)
    /\ files w' !! mono_path "/repo" = files (start two_by_two) !! mono_path "/repo"
    /\ files w' !! tmp_png
       = Some (raw_encode_image (Image 2 2 [black; white; white; white]))
    /\ stdout w'
       = stdout (start two_by_two) ++ ["Created color SVG: " +:+ color_path "/repo"].
Proof.
  apply (main_partial_failure no_os_error no_print_error raw_decode_image raw_encode_image
           raw_decode_text raw_encode_text no_unicode color_only_tracer "/repo"
           (start two_by_two) (RawImage two_by_two) two_by_two
           (Image 2 2 [black; white; white; white]) (RawText one_red_shape));
    try reflexivity.
  repeat split.
Defined.

Lemma main_aborts_first_witness :
  (exists e, run_main no_os_error one_shape_tracer "/repo" no_source
             = Raise e no_source)
  /\ (exists e, run_main no_os_error strict_tracer "/repo" text_source
                = Raise e text_source).
Proof.
  split.
  - apply (main_aborts_first no_os_error no_print_error raw_decode_image
             raw_encode_image raw_decode_text raw_encode_text no_unicode
             one_shape_tracer "/repo" no_source).
    intros _ source H. discriminate H.
  - apply (main_aborts_first no_os_error no_print_error raw_decode_image
             raw_encode_image raw_decode_text raw_encode_text no_unicode
             strict_tracer "/repo" text_source).
    intros _ source [= <-]. eexists. reflexivity.
Defined.

Lemma monochrome_open_failure_witness :
  exists e,
    run_monochrome no_os_error one_shape_tracer
      "/repo/icon.png" "/repo/activitybar-icon.svg" text_source
    = Raise e text_source
    /\ (no_os_error Reading "/repo/icon.png" = Some e
        \/ (no_os_error Reading "/repo/icon.png" = None
            /\ files text_source !! "/repo/icon.png"%string = None
            /\ e = FileNotFoundError "/repo/icon.png")
        \/ (no_os_error Reading "/repo/icon.png" = None
            /\ exists source,
                 files text_source !! "/repo/icon.png"%string = Some source
                 /\ raw_decode_image source = inr e)).
Proof.
  apply (monochrome_open_failure no_os_error no_print_error raw_decode_image raw_encode_image
           raw_decode_text raw_encode_text no_unicode one_shape_tracer
           "/repo/icon.png" "/repo/activitybar-icon.svg" text_source).
  intros _ source [= <-]. eexists. reflexivity.
Defined.

Lemma monochrome_colour_blind_witness :
  match run_monochrome no_os_error one_shape_tracer
          "/repo/icon.png" "/out.svg" (start two_by_two),
        run_monochrome no_os_error binary_only_tracer
          "/repo/icon.png" "/out.svg" (start two_by_two_red) with
  | Ok _ a, Ok _ b =>
      files a !! "/out.svg"%string = files b !! "/out.svg"%string
      /\ is_Some (files a !! "/out.svg"%string)
  | Raise e1 _, Raise e2 _ => e1 = e2
  | _, _ => False
  end.
Proof.
  apply (monochrome_colour_blind no_os_error no_print_error raw_decode_image raw_encode_image
           raw_decode_text raw_encode_text no_unicode
           one_shape_tracer binary_only_tracer "/repo/icon.png" "/repo/icon.png"
           "/out.svg" (start two_by_two) (start two_by_two_red)
           (RawImage two_by_two) (RawImage two_by_two_red)
           two_by_two two_by_two_red
           (Image 2 2 [black; white; white; white])); try reflexivity.
Defined.

End RunWitnesses.
